(** * rumour_collation: a shallow embedding of the forum-rumour pipeline

    The program of [rumour_collation.py] fetches posts and comments of a
    forum, annotates every record with a sentiment polarity and with
    keyword flags, aggregates the flags into signal strengths, extracts
    company-like names with a regular expression and writes a report.

    The embedding follows the source function by function:
    - a Python [str] is a [string]; [str.lower()], [str.strip()] and the
      word characters of [\b] are given for ASCII text ([isascii]);
    - a Python integer is a [Z]; the cells of an integer column are
      [int64], and a sum over them wraps around as numpy's does
      ([wrap64]); Python floats are the binary64 numbers of [PrimFloat];
    - a pandas [DataFrame] is its row count with its named columns, in
      column order;
    - an exception is the [Raise] alternative of [result];
    - the forum API and the clock are fields of [World], which also
      records, call by call, the directories made, the lines logged and
      the files written; it is threaded through [IO]. *)

From Stdlib Require Import ZArith List String Ascii Bool Lia Arith.
From Stdlib Require Import Sorting.Sorted.
From Stdlib Require Import Floats.PrimFloat Floats.SpecFloat Floats.FloatOps.
Import ListNotations.

Local Open Scope string_scope.
Local Open Scope list_scope.

(** String concatenation, Python's [+] on [str]; [++] is kept for lists. *)
Infix "+++" := String.append (right associativity, at level 60).

(** ** Python values and exceptions *)

Inductive exn : Type :=
| KeyError (key : string)
| AttributeError
| TypeError
| ZeroDivisionError.

Inductive result (A : Type) : Type :=
| Ok (a : A)
| Raise (e : exn).

Arguments Ok {A} a.
Arguments Raise {A} e.

Definition bind {A B : Type} (m : result A) (f : A -> result B) : result B :=
  match m with
  | Ok a => f a
  | Raise e => Raise e
  end.

Declare Scope py_scope.
Delimit Scope py_scope with py.
Notation "x <- m ;; k" := (bind m (fun x => k))
  (at level 61, m at next level, right associativity) : py_scope.
Local Open Scope py_scope.

(** A cell of a frame, or a Python scalar. [VTime] is a pandas timestamp,
    in seconds. *)
Inductive value : Type :=
| VInt (z : Z)
| VFloat (f : float)
| VStr (s : string)
| VTime (t : Z).

(** Conversion of an integer to binary64, rounding to nearest even: what
    numpy does to both operands of [int64 / int] and Python to the [100]
    of [x * 100]. *)
Definition float_of_Z (z : Z) : float :=
  SF2Prim (binary_normalize prec emax z 0 false).

(** Python's [+] on the numbers the pipeline adds. *)
Definition py_add (a b : value) : result value :=
  match a, b with
  | VInt x, VInt y => Ok (VInt (x + y))
  | VInt x, VFloat y => Ok (VFloat (float_of_Z x + y))
  | VFloat x, VInt y => Ok (VFloat (x + float_of_Z y))
  | VFloat x, VFloat y => Ok (VFloat (x + y))
  | _, _ => Raise TypeError
  end.

(** ** Strings *)

Definition is_upper (c : ascii) : bool :=
  let n := nat_of_ascii c in (65 <=? n)%nat && (n <=? 90)%nat.

Definition is_lower (c : ascii) : bool :=
  let n := nat_of_ascii c in (97 <=? n)%nat && (n <=? 122)%nat.

Definition is_digit (c : ascii) : bool :=
  let n := nat_of_ascii c in (48 <=? n)%nat && (n <=? 57)%nat.

(** [str.isascii()]: every character is below 128. *)
Definition is_ascii (c : ascii) : bool := (nat_of_ascii c <? 128)%nat.

Definition isascii (s : string) : bool :=
  forallb is_ascii (list_ascii_of_string s).

Definition lower_char (c : ascii) : ascii :=
  if is_upper c then ascii_of_nat (nat_of_ascii c + 32) else c.

(** [str.lower()] on ASCII text *)
Fixpoint lower (s : string) : string :=
  match s with
  | EmptyString => EmptyString
  | String c s' => String (lower_char c) (lower s')
  end.

Fixpoint startswith (p s : string) : bool :=
  match p, s with
  | EmptyString, _ => true
  | String a p', String b s' => Ascii.eqb a b && startswith p' s'
  | String _ _, EmptyString => false
  end.

(** [needle in hay] on two [str] *)
Fixpoint str_in (needle hay : string) : bool :=
  startswith needle hay ||
  match hay with
  | EmptyString => false
  | String _ hay' => str_in needle hay'
  end.

(** [str.isspace()] on ASCII text: tab to carriage return, the four
    separators, and the space. *)
Definition is_space (c : ascii) : bool :=
  let n := nat_of_ascii c in
  ((9 <=? n)%nat && (n <=? 13)%nat) || ((28 <=? n)%nat && (n <=? 32)%nat).

Fixpoint lstrip (s : list ascii) : list ascii :=
  match s with
  | c :: s' => if is_space c then lstrip s' else s
  | [] => []
  end.

(** [str.strip()] on ASCII text *)
Definition strip (s : string) : string :=
  string_of_list_ascii (rev (lstrip (rev (lstrip (list_ascii_of_string s))))).

Example strip_example : strip "  r jobs " = "r jobs".
Proof. reflexivity. Qed.

(** [sep.join(items)] *)
Fixpoint join (sep : string) (items : list string) : string :=
  match items with
  | [] => ""
  | [x] => x
  | x :: rest => x +++ sep +++ join sep rest
  end.

(** ** pandas: frames and series *)

Definition Series : Type := list value.

Record DataFrame : Type := mkDataFrame {
  index : nat;
  columns : list (string * Series)
}.

(** A Python [dict] with string keys, in insertion order. *)
Definition dict : Type := list (string * value).

Fixpoint lookup {A : Type} (key : string) (l : list (string * A)) : option A :=
  match l with
  | [] => None
  | (k, v) :: l' => if String.eqb key k then Some v else lookup key l'
  end.

Definition nan_value : value := VFloat nan.

Definition keys_of (acc : list string) (d : dict) : list string :=
  fold_left (fun ks kv => if existsb (String.eqb (fst kv)) ks then ks
                          else ks ++ [fst kv]) d acc.

(** The cell of a record under a key: NaN where the record lacks it. *)
Definition cell (key : string) (r : dict) : value :=
  match lookup key r with
  | Some v => v
  | None => nan_value
  end.

Definition is_float (v : value) : bool :=
  match v with
  | VFloat _ => true
  | _ => false
  end.

Definition is_number (v : value) : bool :=
  match v with
  | VInt _ | VFloat _ => true
  | _ => false
  end.

Definition upcast (v : value) : value :=
  match v with
  | VInt z => VFloat (float_of_Z z)
  | _ => v
  end.

(** The column that pandas makes of the cells of a key: a column of
    numbers is a [float64] column as soon as one cell is a float or is
    missing, and an [int64] column otherwise; other cells are kept. *)
Definition infer_column (cells : Series) : Series :=
  if forallb is_number cells && existsb is_float cells then map upcast cells
  else cells.

(** [pd.DataFrame(records)] for a list of dictionaries: one row per
    record, one column per key in order of first appearance.  An empty
    list gives a frame with no rows and no columns. *)
Definition pd_DataFrame (records : list dict) : DataFrame :=
  let keys := fold_left keys_of records [] in
  mkDataFrame (List.length records)
    (map (fun k => (k, infer_column (map (cell k) records))) keys).

(** [len(df)] *)
Definition len (df : DataFrame) : nat := index df.

(** [df[key]] *)
Definition getitem (df : DataFrame) (key : string) : result Series :=
  match lookup key (columns df) with
  | Some s => Ok s
  | None => Raise (KeyError key)
  end.

Fixpoint replace_or_append (key : string) (s : Series)
    (cols : list (string * Series)) : list (string * Series) :=
  match cols with
  | [] => [(key, s)]
  | (k, v) :: cols' =>
      if String.eqb key k then (k, s) :: cols'
      else (k, v) :: replace_or_append key s cols'
  end.

(** [df[key] = s] for a series [s] computed from the rows of [df]: the
    column is replaced in place when it exists and appended otherwise. *)
Definition setitem (df : DataFrame) (key : string) (s : Series) : DataFrame :=
  mkDataFrame (index df) (replace_or_append key s (columns df)).

(** [series.apply(f)] *)
Fixpoint series_apply (f : value -> result value) (s : Series) : result Series :=
  match s with
  | [] => Ok []
  | x :: s' =>
      y <- f x ;;
      ys <- series_apply f s' ;;
      Ok (y :: ys)
  end.

Fixpoint series_ints (s : Series) : result (list Z) :=
  match s with
  | [] => Ok []
  | VInt z :: s' => zs <- series_ints s' ;; Ok (z :: zs)
  | _ :: _ => Raise TypeError
  end.

Fixpoint series_floats (s : Series) : result (list float) :=
  match s with
  | [] => Ok []
  | VFloat f :: s' => fs <- series_floats s' ;; Ok (f :: fs)
  | _ :: _ => Raise TypeError
  end.

(** The [int64] that has the bits of [z]: numpy's integer arithmetic
    wraps around at [2^63]. *)
Definition wrap64 (z : Z) : Z := ((z + 2 ^ 63) mod 2 ^ 64 - 2 ^ 63)%Z.

(** The sum of integers, unbounded. *)
Definition Ztotal (l : list Z) : Z := fold_right Z.add 0%Z l.

(** The sum of [int64] cells, as numpy computes it. *)
Definition Zsum (l : list Z) : Z := wrap64 (Ztotal l).

Example int64_sum_wraps : Zsum [2 ^ 62; 2 ^ 62]%Z = (- 2 ^ 63)%Z.
Proof. reflexivity. Qed.

(** The sum of [float64] cells, added row after row from [0.0], a NaN
    counting for nothing.  numpy adds a long column block by block,
    which can round otherwise; where every partial sum is exact, as on
    the zeros that an empty keyword list leaves, the grouping makes no
    difference. *)
Definition fsum (l : list float) : float :=
  fold_left (fun acc f => if PrimFloat.is_nan f then acc else (acc + f)%float) l 0%float.

(** [series.sum()] of a column of numbers: an [int64] for integers, a
    [float64] for floats. *)
Definition series_sum (s : Series) : result value :=
  match s with
  | VFloat _ :: _ => fs <- series_floats s ;; Ok (VFloat (fsum fs))
  | _ => zs <- series_ints s ;; Ok (VInt (Zsum zs))
  end.

(** [df[[k1, ..., kn]]]: the listed columns, a missing one raising. *)
Fixpoint getitem_list (df : DataFrame) (keys : list string) : result (list Series) :=
  match keys with
  | [] => Ok []
  | k :: keys' =>
      s <- getitem df k ;;
      ss <- getitem_list df keys' ;;
      Ok (s :: ss)
  end.

Fixpoint all_ints (cols : list Series) : result (list (list Z)) :=
  match cols with
  | [] => Ok []
  | c :: cols' =>
      zs <- series_ints c ;;
      zss <- all_ints cols' ;;
      Ok (zs :: zss)
  end.

(** [frame.sum(axis=1)] over [n] rows: row [i] sums entry [i] of every
    column, in [int64]; a frame with no column sums to the float [0.0]
    in every row. *)
Definition sum_axis1 (n : nat) (cols : list Series) : result Series :=
  match cols with
  | [] => Ok (repeat (VFloat 0) n)
  | _ :: _ =>
      zss <- all_ints cols ;;
      Ok (map (fun i => VInt (Zsum (map (fun zs => nth i zs 0%Z) zss))) (seq 0 n))
  end.

(** [a + sep + b] on two string columns *)
Fixpoint series_concat (a : Series) (sep : string) (b : Series) : result Series :=
  match a, b with
  | VStr x :: a', VStr y :: b' =>
      rest <- series_concat a' sep b' ;;
      Ok (VStr (x +++ sep +++ y) :: rest)
  | [], [] => Ok []
  | _, _ => Raise TypeError
  end.

Fixpoint series_strs (s : Series) : result (list string) :=
  match s with
  | [] => Ok []
  | VStr x :: s' => xs <- series_strs s' ;; Ok (x :: xs)
  | _ :: _ => Raise TypeError
  end.

(** ** Keyword lexicons (lines 36-59) *)

Definition MERGER_KEYWORDS : list string :=
  [ "merger"; "acquisition"; "buyout"; "takeover"; "consolidation";
    "join forces"; "strategic partnership"; "corporate restructuring";
    "company integration"; "synergy"; "hostile bid"; "tender offer";
    "acquiring stake"; "majority shareholder" ].

Definition LAYOFF_KEYWORDS : list string :=
  [ "layoff"; "downsizing"; "restructuring"; "job cuts"; "redundancies";
    "workforce reduction"; "pink slip"; "let go"; "fired"; "termination";
    "cost-cutting measures"; "headcount reduction" ].

Definition REASSIGNMENT_KEYWORDS : list string :=
  [ "reassignment"; "reallocation"; "new role"; "position change";
    "department transfer"; "job rotation"; "shifting responsibilities";
    "organizational changes"; "new manager"; "reporting structure change" ].

Definition REDUCED_WORKLOAD_KEYWORDS : list string :=
  [ "reduced workload"; "less work"; "slow period"; "downtime";
    "bench time"; "low utilization"; "project cancellation"; "on hold";
    "delayed start"; "reduced hours"; "forced vacation" ].

(** ** Annotator (lines 93-101) *)

(** The column names [f'{column_prefix}_{keyword}'] and
    [f'{column_prefix}_score']. *)
Definition flag_column (column_prefix keyword : string) : string :=
  column_prefix +++ "_" +++ keyword.

Definition score_column (column_prefix : string) : string :=
  column_prefix +++ "_score".

(** [1 if keyword.lower() in x.lower() else 0] *)
Definition keyword_flag (keyword x : string) : Z :=
  if str_in (lower keyword) (lower x) then 1%Z else 0%Z.

(** The lambda of line 99; [x.lower()] exists on [str] only. *)
Definition keyword_lambda (keyword : string) (x : value) : result value :=
  match x with
  | VStr s => Ok (VInt (keyword_flag keyword s))
  | _ => Raise AttributeError
  end.

(** The loop of lines 98-99. *)
Fixpoint keyword_loop (df : DataFrame) (text_column : string)
    (keywords : list string) (column_prefix : string) : result DataFrame :=
  match keywords with
  | [] => Ok df
  | keyword :: rest =>
      col <- getitem df text_column ;;
      flags <- series_apply (keyword_lambda keyword) col ;;
      keyword_loop (setitem df (flag_column column_prefix keyword) flags)
                   text_column rest column_prefix
  end.

Definition keyword_analysis (df : DataFrame) (text_column : string)
    (keywords : list string) (column_prefix : string) : result DataFrame :=
  df <- keyword_loop df text_column keywords column_prefix ;;
  cols <- getitem_list df (map (flag_column column_prefix) keywords) ;;
  score <- sum_axis1 (index df) cols ;;
  Ok (setitem df (score_column column_prefix) score).

(** ** Aggregator (lines 129-134) *)

(** The float that true division makes of a number. *)
Definition to_float (v : value) : result float :=
  match v with
  | VInt z => Ok (float_of_Z z)
  | VFloat f => Ok f
  | _ => Raise TypeError
  end.

Definition calculate_signal_strength (df : DataFrame) (column_prefix : string)
    : result value :=
  total_mentions <- (col <- getitem df (score_column column_prefix) ;; series_sum col) ;;
  let total_posts := len df in
  if (0 <? total_posts)%nat then
    x <- to_float total_mentions ;;
    Ok (VFloat (x / float_of_Z (Z.of_nat total_posts) * float_of_Z 100))
  else Ok (VInt 0).

Example three_posts : DataFrame :=
  pd_DataFrame [ [("full_text", VStr "Big Merger announced today")];
                 [("full_text", VStr "nothing to see")];
                 [("full_text", VStr "lunch was fine")] ].

Example three_posts_signal :
  (df <- keyword_analysis three_posts "full_text" MERGER_KEYWORDS "merger" ;;
   calculate_signal_strength df "merger")
  = Ok (VFloat (1 / 3 * 100)).
Proof. vm_compute. reflexivity. Qed.

(** ** Regular expressions: the fragment of [re] that line 126 uses *)

Inductive regex : Type :=
| Eps                             (* the empty pattern *)
| Chr (c : ascii)                 (* a literal character *)
| Cls (p : ascii -> bool)         (* a character class [[...]] *)
| Rep1 (p : ascii -> bool)        (* [[...]+], greedy *)
| Cat (r1 r2 : regex)             (* concatenation *)
| Alt (r1 r2 : regex)             (* [r1|r2], the left branch tried first *)
| WordB.                          (* [\b] *)

(** [\w] on ASCII text *)
Definition is_word (c : ascii) : bool :=
  is_upper c || is_lower c || is_digit c || Ascii.eqb c "_".

Definition word_before (prev : option ascii) : bool :=
  match prev with
  | Some c => is_word c
  | None => false
  end.

Definition word_after (s : list ascii) : bool :=
  match s with
  | c :: _ => is_word c
  | [] => false
  end.

(** [\b] holds where exactly one side is a word character. *)
Definition at_boundary (prev : option ascii) (s : list ascii) : bool :=
  xorb (word_before prev) (word_after s).

(** The greedy loop of [[...]+]: take one character of the class, prefer
    taking more, and fall back to the continuation [k]. *)
Fixpoint rep1 {A : Type} (p : ascii -> bool) (i : nat) (s : list ascii)
    (k : nat -> option ascii -> list ascii -> option A) : option A :=
  match s with
  | c :: s' =>
      if p c then
        match rep1 p (S i) s' k with
        | Some out => Some out
        | None => k (S i) (Some c) s'
        end
      else None
  | [] => None
  end.

(** A backtracking matcher in continuation-passing style: [i] counts the
    characters matched so far, [prev] is the character before the
    current position, [s] the input from the position on, and [k]
    continues after the match of [r]. *)
Fixpoint rmatch {A : Type} (r : regex) (i : nat) (prev : option ascii) (s : list ascii)
    (k : nat -> option ascii -> list ascii -> option A) : option A :=
  match r with
  | Eps => k i prev s
  | Chr c =>
      match s with
      | a :: s' => if Ascii.eqb a c then k (S i) (Some a) s' else None
      | [] => None
      end
  | Cls p =>
      match s with
      | a :: s' => if p a then k (S i) (Some a) s' else None
      | [] => None
      end
  | Rep1 p => rep1 p i s k
  | Cat r1 r2 => rmatch r1 i prev s (fun i' prev' s' => rmatch r2 i' prev' s' k)
  | Alt r1 r2 =>
      match rmatch r1 i prev s k with
      | Some out => Some out
      | None => rmatch r2 i prev s k
      end
  | WordB => if at_boundary prev s then k i prev s else None
  end.

(** The length of the match of [r] at the current position, if any. *)
Definition match_len (r : regex) (prev : option ascii) (s : list ascii) : option nat :=
  rmatch r 0 prev s (fun n _ _ => Some n).

(** The scan of [re.findall] for a pattern that matches no empty string:
    try every position from left to right, and resume after a match;
    [skip] counts the characters of the last match still to be passed. *)
Fixpoint scan (r : regex) (skip : nat) (prev : option ascii) (s : list ascii)
    : list (list ascii) :=
  match s with
  | [] => []
  | c :: s' =>
      match skip with
      | S n => scan r n (Some c) s'
      | O =>
          match match_len r prev s with
          | Some (S n) => firstn (S n) s :: scan r n (Some c) s'
          | _ => scan r 0 (Some c) s'
          end
      end
  end.

(** [re.findall(pattern, text)] for a pattern without groups *)
Definition findall (r : regex) (text : string) : list string :=
  map string_of_list_ascii (scan r 0 None (list_ascii_of_string text)).

Fixpoint Lit (s : list ascii) : regex :=
  match s with
  | [] => Eps
  | [c] => Chr c
  | c :: s' => Cat (Chr c) (Lit s')
  end.

Definition word (s : string) : regex := Lit (list_ascii_of_string s).

(** ** Entity extractor (lines 124-127) *)

(** [r'\b[A-Z][a-z]+ (?:Inc|Corp|Co|Ltd)\b'] *)
Definition company_pattern : regex :=
  Cat WordB
 (Cat (Cls is_upper)
 (Cat (Rep1 is_lower)
 (Cat (Chr " ")
 (Cat (Alt (word "Inc") (Alt (word "Corp") (Alt (word "Co") (word "Ltd"))))
      WordB)))).

Definition extract_companies (text : string) : list string :=
  findall company_pattern text.

(** ** [collections.Counter] *)

(** [counter[x] = counter.get(x, 0) + 1]: a known key keeps its place,
    a new key goes last. *)
Fixpoint counter_add (x : string) (c : list (string * nat)) : list (string * nat) :=
  match c with
  | [] => [(x, 1%nat)]
  | (y, n) :: c' =>
      if String.eqb x y then (y, S n) :: c'
      else (y, n) :: counter_add x c'
  end.

(** [Counter(items)] *)
Definition Counter (items : list string) : list (string * nat) :=
  fold_left (fun c x => counter_add x c) items [].

(** Insertion of an earlier entry [p] into entries sorted by descending
    count: [p] goes before the first entry whose count is not larger. *)
Fixpoint insert_desc (p : string * nat) (l : list (string * nat)) : list (string * nat) :=
  match l with
  | [] => [p]
  | q :: l' =>
      if (snd q <=? snd p)%nat then p :: q :: l'
      else q :: insert_desc p l'
  end.

(** [sorted(items, key=count, reverse=True)]: stable, so entries of
    equal count keep the order of [items]. *)
Definition sort_desc (l : list (string * nat)) : list (string * nat) :=
  fold_right insert_desc [] l.

(** [counter.most_common(n)], which the library documents as
    [sorted(counter.items(), key=count, reverse=True)[:n]]. *)
Definition most_common (n : nat) (c : list (string * nat)) : list (string * nat) :=
  firstn n (sort_desc c).

Example extract_example :
  extract_companies "Example Corp was acquired by Sample Inc"
  = ["Example Corp"; "Sample Inc"].
Proof. vm_compute. reflexivity. Qed.

Example extract_multiword :
  extract_companies "Acme Global Inc and Foo Corporation, Bar Co. X Ltd Abc Ltd"
  = ["Global Inc"; "Bar Co"; "Abc Ltd"].
Proof. vm_compute. reflexivity. Qed.

Example most_common_example :
  most_common 2 (Counter ["b"; "a"; "c"; "a"; "c"; "d"])
  = [("a", 2%nat); ("c", 2%nat)].
Proof. vm_compute. reflexivity. Qed.

(** ** The world of the batch job *)

(** What the forum API returns for a comment and for a post;
    [s_comments] is [post.comments.list()] after
    [replace_more(limit=0)]. *)
Record Comment : Type := mkComment {
  c_id : string;
  c_parent_id : string;
  c_body : string;
  c_score : Z;
  c_created_utc : Z
}.

Record Submission : Type := mkSubmission {
  s_title : string;
  s_score : Z;
  s_id : string;
  s_url : string;
  s_num_comments : Z;
  s_created_utc : Z;
  s_selftext : string;
  s_comments : list Comment
}.

(** The numbers and entities that the text of [report.txt] renders. *)
Record Report : Type := mkReport {
  report_subreddit : string;
  merger_signal : value;
  layoff_signal : value;
  reassign_signal : value;
  reduced_work_signal : value;
  company_counts : list (string * nat);
  posts_sentiment : float;
  comments_sentiment : float
}.

Inductive artifact : Type :=
| Png
| ReportTxt (r : Report)
| Csv (df : DataFrame).

(** The forum API and the clock, and the calls made so far: [dirs] the
    calls of [os.makedirs], [log] the calls of [logging.info], [files]
    the files written with their paths, each list oldest first.  A
    write replaces what its path held, so the content of a path is its
    latest write ([file_at]). *)
Record World : Type := mkWorld {
  hot : string -> list Submission;  (* [reddit.subreddit(name).hot()] *)
  now : string;                     (* [datetime.now()] as [%Y%m%d_%H%M%S] *)
  dirs : list string;
  log : list string;
  files : list (string * artifact)
}.

(** A computation that may raise and that reads and changes the world. *)
Definition IO (A : Type) : Type := World -> result A * World.

Definition io_bind {A B : Type} (m : IO A) (f : A -> IO B) : IO B :=
  fun w =>
    match m w with
    | (Ok a, w') => f a w'
    | (Raise e, w') => (Raise e, w')
    end.


Definition lift {A : Type} (m : result A) : IO A := fun w => (m, w).

Notation "x <~ m ;; k" := (io_bind m (fun x => k))
  (at level 61, m at next level, right associativity) : py_scope.

Definition datetime_now : IO string := fun w => (Ok (now w), w).

Definition os_makedirs (path : string) : IO unit :=
  fun w => (Ok tt, mkWorld (hot w) (now w) (dirs w ++ [path]) (log w) (files w)).

Definition logging_info (line : string) : IO unit :=
  fun w => (Ok tt, mkWorld (hot w) (now w) (dirs w) (log w ++ [line]) (files w)).

(** [open(path, 'w')] with [write], [plt.savefig(path)] and
    [df.to_csv(path)]: one more write on record. *)
Definition write_file (path : string) (a : artifact) : IO unit :=
  fun w => (Ok tt, mkWorld (hot w) (now w) (dirs w) (log w) (files w ++ [(path, a)])).

(** What the file at [path] holds: the latest write to it. *)
Definition file_at (path : string) (w : World) : option artifact :=
  lookup path (rev (files w)).

(** ** Fetcher (lines 61-91) *)

Definition post_dict (post : Submission) : dict :=
  [ ("title", VStr (s_title post));
    ("score", VInt (s_score post));
    ("id", VStr (s_id post));
    ("url", VStr (s_url post));
    ("comms_num", VInt (s_num_comments post));
    ("created", VTime (s_created_utc post));
    ("body", VStr (s_selftext post)) ].

Definition comment_dict (post : Submission) (comment : Comment) : dict :=
  [ ("post_id", VStr (s_id post));
    ("comment_id", VStr (c_id comment));
    ("comment_parent_id", VStr (c_parent_id comment));
    ("comment_body", VStr (c_body comment));
    ("comment_score", VInt (c_score comment));
    ("created", VTime (c_created_utc comment)) ].

Definition analyze_subreddit (subreddit_name : string) (num_posts num_comments : nat)
    : IO (DataFrame * DataFrame) :=
  fun w =>
    let listing := firstn num_posts (hot w subreddit_name) in
    let posts := map post_dict listing in
    let comments :=
      flat_map (fun post =>
                  map (comment_dict post) (firstn num_comments (s_comments post)))
               listing in
    (Ok (pd_DataFrame posts, pd_DataFrame comments), w).

Section Pipeline.

(** The collaborators: [TextBlob(x).sentiment.polarity] and the mean of
    a float column. *)
Variable polarity : string -> float.
Variable mean : list float -> float.

(** The lambda of line 94; [TextBlob] accepts [str] only. *)
Definition sentiment_lambda (x : value) : result value :=
  match x with
  | VStr s => Ok (VFloat (polarity s))
  | _ => Raise TypeError
  end.

(** Lines 93-95 *)
Definition sentiment_analysis (df : DataFrame) (text_column : string) : result DataFrame :=
  col <- getitem df text_column ;;
  sentiment <- series_apply sentiment_lambda col ;;
  Ok (setitem df "sentiment" sentiment).

(** [series.mean()] *)
Definition series_mean (s : Series) : result float :=
  fs <- series_floats s ;; Ok (mean fs).

(** ** Reporter: the charts (lines 103-122) *)

Definition plot_sentiment_over_time (df : DataFrame) (title output_dir : string) : IO unit :=
  _ <~ lift (getitem df "created") ;;
  _ <~ lift (getitem df "sentiment") ;;
  write_file (output_dir +++ "/sentiment_" +++ lower title +++ ".png") Png.

Fixpoint keyword_counts (df : DataFrame) (keywords : list string) (column_prefix : string)
    : result (list (string * value)) :=
  match keywords with
  | [] => Ok []
  | keyword :: rest =>
      n <- (col <- getitem df (flag_column column_prefix keyword) ;; series_sum col) ;;
      ns <- keyword_counts df rest column_prefix ;;
      Ok ((keyword, n) :: ns)
  end.

Definition plot_keyword_frequency (df : DataFrame) (keywords : list string)
    (title column_prefix output_dir : string) : IO unit :=
  _ <~ lift (keyword_counts df keywords column_prefix) ;;
  write_file (output_dir +++ "/keyword_frequency_" +++ lower title +++ ".png") Png.

(** ** Orchestrator (lines 136-210) *)

(** [calculate_signal_strength(posts_df, p) + calculate_signal_strength(comments_df, p)] *)
Definition combined_signal (posts_df comments_df : DataFrame) (column_prefix : string)
    : result value :=
  a <- calculate_signal_strength posts_df column_prefix ;;
  b <- calculate_signal_strength comments_df column_prefix ;;
  py_add a b.

Definition analyze_company (subreddit_name : string) : IO unit :=
  stamp <~ datetime_now ;;
  let output_dir := "output/" +++ subreddit_name +++ "_" +++ stamp in
  _ <~ os_makedirs output_dir ;;
  _ <~ logging_info ("Starting analysis for r/" +++ subreddit_name) ;;
  dfs <~ analyze_subreddit subreddit_name 100 100 ;;
  let posts_df := fst dfs in
  let comments_df := snd dfs in
  (* Combine post titles and bodies *)
  full_text <~ lift (title <- getitem posts_df "title" ;;
                     body <- getitem posts_df "body" ;;
                     series_concat title " " body) ;;
  let posts_df := setitem posts_df "full_text" full_text in
  (* Sentiment analysis *)
  posts_df <~ lift (sentiment_analysis posts_df "full_text") ;;
  comments_df <~ lift (sentiment_analysis comments_df "comment_body") ;;
  (* Keyword analysis *)
  posts_df <~ lift (keyword_analysis posts_df "full_text" MERGER_KEYWORDS "merger") ;;
  posts_df <~ lift (keyword_analysis posts_df "full_text" LAYOFF_KEYWORDS "layoff") ;;
  posts_df <~ lift (keyword_analysis posts_df "full_text" REASSIGNMENT_KEYWORDS "reassign") ;;
  posts_df <~ lift (keyword_analysis posts_df "full_text" REDUCED_WORKLOAD_KEYWORDS "reduced_work") ;;
  comments_df <~ lift (keyword_analysis comments_df "comment_body" MERGER_KEYWORDS "merger") ;;
  comments_df <~ lift (keyword_analysis comments_df "comment_body" LAYOFF_KEYWORDS "layoff") ;;
  comments_df <~ lift (keyword_analysis comments_df "comment_body" REASSIGNMENT_KEYWORDS "reassign") ;;
  comments_df <~ lift (keyword_analysis comments_df "comment_body" REDUCED_WORKLOAD_KEYWORDS "reduced_work") ;;
  (* Plot results *)
  _ <~ plot_sentiment_over_time posts_df "Posts" output_dir ;;
  _ <~ plot_sentiment_over_time comments_df "Comments" output_dir ;;
  _ <~ plot_keyword_frequency posts_df MERGER_KEYWORDS "Merger Keywords (Posts)" "merger" output_dir ;;
  _ <~ plot_keyword_frequency comments_df MERGER_KEYWORDS "Merger Keywords (Comments)" "merger" output_dir ;;
  (* Extract and count mentioned companies *)
  all_text <~ lift (texts <- (col <- getitem posts_df "full_text" ;; series_strs col) ;;
                    bodies <- (col <- getitem comments_df "comment_body" ;; series_strs col) ;;
                    Ok (join " " texts +++ " " +++ join " " bodies)) ;;
  let companies := extract_companies all_text in
  let company_counts := most_common 10 (Counter companies) in
  (* Calculate signal strengths *)
  merger_signal <~ lift (combined_signal posts_df comments_df "merger") ;;
  layoff_signal <~ lift (combined_signal posts_df comments_df "layoff") ;;
  reassign_signal <~ lift (combined_signal posts_df comments_df "reassign") ;;
  reduced_work_signal <~ lift (combined_signal posts_df comments_df "reduced_work") ;;
  (* Prepare and save the report *)
  posts_mean <~ lift (col <- getitem posts_df "sentiment" ;; series_mean col) ;;
  comments_mean <~ lift (col <- getitem comments_df "sentiment" ;; series_mean col) ;;
  let report := mkReport subreddit_name merger_signal layoff_signal reassign_signal
                         reduced_work_signal company_counts posts_mean comments_mean in
  _ <~ write_file (output_dir +++ "/report.txt") (ReportTxt report) ;;
  _ <~ logging_info ("Analysis complete for r/" +++ subreddit_name +++ ". Report saved to "
                     +++ output_dir +++ "/report.txt") ;;
  (* Save detailed results *)
  _ <~ write_file (output_dir +++ "/posts.csv") (Csv posts_df) ;;
  write_file (output_dir +++ "/comments.csv") (Csv comments_df).


End Pipeline.

(** * Properties *)

(** ** Strings *)

(** [needle] occurs in [hay] as a substring. *)
Definition substring_of (needle hay : string) : Prop :=
  exists a b, hay = a +++ needle +++ b.

Lemma startswith_spec (p s : string) :
  startswith p s = true <-> exists b, s = p +++ b.
Proof.
  revert s; induction p as [| a p IH]; intros s; simpl.
  - split; [intros _; now exists s | reflexivity].
  - destruct s as [| c s].
    + split; [discriminate | intros [b Hb]; discriminate].
    + rewrite andb_true_iff, Ascii.eqb_eq, IH. split.
      * intros [-> [b ->]]. now exists b.
      * intros [b Hb]. injection Hb as -> ->. split; [reflexivity | now exists b].
Qed.

Lemma str_in_spec (needle hay : string) :
  str_in needle hay = true <-> substring_of needle hay.
Proof.
  unfold substring_of.
  induction hay as [| c hay IH].
  - simpl. rewrite orb_false_r, startswith_spec. split.
    + intros [b Hb]. now exists "", b.
    + intros [a [b Hab]]. destruct a; simpl in Hab; [now exists b | discriminate].
  - cbn [str_in]. rewrite orb_true_iff, startswith_spec, IH. split.
    + intros [[b Hb] | [a [b Hab]]].
      * now exists "", b.
      * exists (String c a), b. simpl. now rewrite Hab.
    + intros [a [b Hab]]. destruct a as [| c' a]; simpl in Hab.
      * left. now exists b.
      * right. injection Hab as _ Hab. now exists a, b.
Qed.

Lemma append_inj_l (p a b : string) : p +++ a = p +++ b -> a = b.
Proof.
  induction p as [| c p IH]; simpl; intros H; [exact H|].
  injection H as H. now apply IH.
Qed.

Lemma flag_column_inj (column_prefix k1 k2 : string) :
  flag_column column_prefix k1 = flag_column column_prefix k2 -> k1 = k2.
Proof.
  unfold flag_column. intros H.
  apply append_inj_l in H. now apply (append_inj_l "_") in H.
Qed.

Lemma flag_column_score (column_prefix keyword : string) :
  flag_column column_prefix keyword = score_column column_prefix <-> keyword = "score".
Proof.
  split.
  - intros H. now apply (flag_column_inj column_prefix keyword "score").
  - now intros ->.
Qed.

Lemma keyword_flag_binary (keyword x : string) :
  keyword_flag keyword x = 0%Z \/ keyword_flag keyword x = 1%Z.
Proof. unfold keyword_flag. destruct (str_in _ _); auto. Qed.

Lemma keyword_flag_spec (keyword x : string) :
  keyword_flag keyword x = 1%Z <-> substring_of (lower keyword) (lower x).
Proof.
  rewrite <- str_in_spec. unfold keyword_flag.
  destruct (str_in _ _); split; intros H; try reflexivity; discriminate.
Qed.

(** The number of keywords of the list that occur in [x]. *)
Definition matching_keywords (keywords : list string) (x : string) : nat :=
  List.length (filter (fun k => Z.eqb (keyword_flag k x) 1) keywords).

Lemma filter_length_le {A : Type} (f : A -> bool) (l : list A) :
  (List.length (filter f l) <= List.length l)%nat.
Proof.
  induction l as [| x l IH]; [apply Nat.le_refl|].
  cbn [filter]. destruct (f x); cbn [List.length]; lia.
Qed.

(** ** Sums of [int64] cells *)

Lemma wrap64_small (z : Z) : (- 2 ^ 63 <= z < 2 ^ 63)%Z -> wrap64 z = z.
Proof.
  unfold wrap64. intros H.
  change (2 ^ 63)%Z with 9223372036854775808%Z in *.
  change (2 ^ 64)%Z with 18446744073709551616%Z.
  rewrite Z.mod_small; lia.
Qed.

Lemma wrap64_add (a b : Z) : wrap64 (a + wrap64 b) = wrap64 (a + b).
Proof.
  unfold wrap64. f_equal.
  replace (a + ((b + 2 ^ 63) mod 2 ^ 64 - 2 ^ 63) + 2 ^ 63)%Z
    with (a + (b + 2 ^ 63) mod 2 ^ 64)%Z by lia.
  rewrite Zplus_mod_idemp_r. f_equal. lia.
Qed.

Lemma Zsum_cons (z : Z) (l : list Z) : Zsum (z :: l) = wrap64 (z + Zsum l).
Proof. unfold Zsum. cbn [Ztotal fold_right]. now rewrite wrap64_add. Qed.

(** Summing the wrapped sums of the rows is summing all cells. *)
Lemma Zsum_rows {A : Type} (f : A -> list Z) (l : list A) :
  Zsum (map (fun x => Zsum (f x)) l) = Zsum (map (fun x => Ztotal (f x)) l).
Proof.
  induction l as [| x l IH]; [reflexivity|].
  cbn [map]. rewrite !Zsum_cons, IH. unfold Zsum at 1.
  rewrite (Z.add_comm (wrap64 _)), wrap64_add. f_equal. apply Z.add_comm.
Qed.

Lemma Ztotal_flags (keywords : list string) (x : string) :
  Ztotal (map (fun k => keyword_flag k x) keywords)
  = Z.of_nat (matching_keywords keywords x).
Proof.
  unfold matching_keywords.
  induction keywords as [| k ks IH]; [reflexivity|].
  cbn [map Ztotal fold_right filter]. fold (Ztotal (map (fun k => keyword_flag k x) ks)).
  rewrite IH.
  destruct (keyword_flag_binary k x) as [E | E]; rewrite E.
  - change (0 =? 1)%Z with false. cbn iota. lia.
  - change (1 =? 1)%Z with true. cbn iota. cbn [List.length]. lia.
Qed.

Lemma matching_keywords_le (keywords : list string) (x : string) :
  (matching_keywords keywords x <= List.length keywords)%nat.
Proof. apply filter_length_le. Qed.

(** A row of fewer than [2^63] flags is summed without wrap-around. *)
Lemma Zsum_flags (keywords : list string) (x : string) :
  (Z.of_nat (List.length keywords) < 2 ^ 63)%Z ->
  Zsum (map (fun k => keyword_flag k x) keywords)
  = Z.of_nat (matching_keywords keywords x).
Proof.
  intros H. unfold Zsum. rewrite Ztotal_flags. apply wrap64_small.
  pose proof (matching_keywords_le keywords x). lia.
Qed.

(** ** Frames *)

(** Every column has one entry per row. *)
Definition wf (df : DataFrame) : Prop :=
  Forall (fun c => List.length (snd c) = index df) (columns df).

Lemma lookup_replace_same {key : string} {s : Series} (cols : list (string * Series)) :
  lookup key (replace_or_append key s cols) = Some s.
Proof.
  induction cols as [| [k v] cols IH]; simpl.
  - now rewrite String.eqb_refl.
  - destruct (String.eqb key k) eqn:E; simpl; rewrite E; [reflexivity | exact IH].
Qed.

Lemma lookup_replace_other {key key' : string} {s : Series} (cols : list (string * Series)) :
  key' <> key -> lookup key' (replace_or_append key s cols) = lookup key' cols.
Proof.
  intros Hne. induction cols as [| [k v] cols IH]; simpl.
  - apply String.eqb_neq in Hne. now rewrite Hne.
  - destruct (String.eqb key k) eqn:E; simpl.
    + apply String.eqb_eq in E. subst k.
      apply String.eqb_neq in Hne. now rewrite Hne.
    + now rewrite IH.
Qed.

Lemma getitem_setitem_same (df : DataFrame) (key : string) (s : Series) :
  getitem (setitem df key s) key = Ok s.
Proof. unfold getitem, setitem; simpl. now rewrite lookup_replace_same. Qed.

Lemma getitem_setitem_other (df : DataFrame) (key key' : string) (s : Series) :
  key' <> key -> getitem (setitem df key s) key' = getitem df key'.
Proof. intros H. unfold getitem, setitem; simpl. now rewrite lookup_replace_other. Qed.

Lemma lookup_In {A : Type} (key : string) (l : list (string * A)) (v : A) :
  lookup key l = Some v -> In (key, v) l.
Proof.
  induction l as [| [k x] l IH]; simpl; [discriminate|].
  destruct (String.eqb key k) eqn:E.
  - apply String.eqb_eq in E. intros [= ->]. left. now subst.
  - intros H. right. now apply IH.
Qed.

Lemma wf_getitem (df : DataFrame) (key : string) (s : Series) :
  wf df -> getitem df key = Ok s -> List.length s = index df.
Proof.
  unfold wf, getitem. intros Hwf H.
  destruct (lookup key (columns df)) eqn:E; [|discriminate].
  injection H as ->. apply lookup_In in E.
  rewrite Forall_forall in Hwf. exact (Hwf _ E).
Qed.

Lemma wf_setitem (df : DataFrame) (key : string) (s : Series) :
  wf df -> List.length s = index df -> wf (setitem df key s).
Proof.
  unfold wf, setitem; simpl. intros Hwf Hlen.
  induction (columns df) as [| [k v] cols IH]; simpl.
  - constructor; [exact Hlen | constructor].
  - inversion Hwf; subst. destruct (String.eqb key k); constructor; auto.
Qed.

(** The names of the columns of [df] stay where they are under
    [setitem]; a new name goes last. *)
Lemma setitem_column_names (df : DataFrame) (key : string) (s : Series) :
  exists extra,
    map fst (columns (setitem df key s)) = map fst (columns df) ++ extra.
Proof.
  unfold setitem; simpl.
  induction (columns df) as [| [k v] cols [extra IH]]; simpl.
  - now exists [key].
  - destruct (String.eqb key k); simpl.
    + exists []. now rewrite app_nil_r.
    + exists extra. now rewrite IH.
Qed.

Lemma bind_Ok {A B : Type} (m : result A) (f : A -> result B) (b : B) :
  bind m f = Ok b -> exists a, m = Ok a /\ f a = Ok b.
Proof. destruct m as [a | e]; simpl; [now exists a | discriminate]. Qed.

(** ** The annotator *)

Definition flag_series (keyword : string) (texts : list string) : Series :=
  map (fun x => VInt (keyword_flag keyword x)) texts.

Lemma series_apply_keyword (keyword : string) (texts : list string) :
  series_apply (keyword_lambda keyword) (map VStr texts) = Ok (flag_series keyword texts).
Proof.
  induction texts as [| t ts IH]; simpl; [reflexivity|]. now rewrite IH.
Qed.

Lemma series_apply_flags (keyword k : string) (texts : list string) (out : Series) :
  series_apply (keyword_lambda keyword) (flag_series k texts) = Ok out -> texts = [].
Proof. destruct texts; [reflexivity | discriminate]. Qed.

Lemma series_ints_flags (keyword : string) (texts : list string) :
  series_ints (flag_series keyword texts) = Ok (map (keyword_flag keyword) texts).
Proof.
  induction texts as [| t ts IH]; simpl; [reflexivity|]. now rewrite IH.
Qed.

(** What the loop of lines 98-99 leaves behind whenever it returns: the
    flags of every keyword, and every other column as it was. *)
Lemma keyword_loop_inv (text_column column_prefix : string) (keywords : list string) :
  forall (df df' : DataFrame) (texts : list string),
    getitem df text_column = Ok (map VStr texts) ->
    keyword_loop df text_column keywords column_prefix = Ok df' ->
    index df' = index df
    /\ (forall k, In k keywords ->
          getitem df' (flag_column column_prefix k) = Ok (flag_series k texts))
    /\ (forall c, ~ In c (map (flag_column column_prefix) keywords) ->
          getitem df' c = getitem df c)
    /\ (exists extra, map fst (columns df') = map fst (columns df) ++ extra).
Proof.
  induction keywords as [| k rest IH]; intros df df' texts Htext Hrun.
  - injection Hrun as <-.
    split; [reflexivity|]. split; [intros k []|]. split; [reflexivity|].
    exists []. now rewrite app_nil_r.
  - cbn [keyword_loop] in Hrun. rewrite Htext in Hrun. cbn [bind] in Hrun.
    rewrite series_apply_keyword in Hrun. cbn [bind] in Hrun.
    set (df1 := setitem df (flag_column column_prefix k) (flag_series k texts)) in *.
    assert (Hstep : getitem df1 text_column = Ok (map VStr texts)
                    \/ (rest = [] /\ df' = df1)).
    { destruct (string_dec text_column (flag_column column_prefix k)) as [Heq | Hne].
      - destruct rest as [| k2 rest'].
        + right. split; [reflexivity|]. now injection Hrun as <-.
        + left. cbn [keyword_loop] in Hrun. unfold df1 in Hrun at 1.
          rewrite Heq, getitem_setitem_same in Hrun. cbn [bind] in Hrun.
          apply bind_Ok in Hrun as [out [Hout _]].
          apply series_apply_flags in Hout. subst texts.
          unfold df1. rewrite Heq, getitem_setitem_same. reflexivity.
      - left. unfold df1. rewrite getitem_setitem_other by exact Hne. exact Htext. }
    assert (Hnames : exists extra, map fst (columns df1) = map fst (columns df) ++ extra)
      by apply setitem_column_names.
    destruct Hstep as [Hstep | [-> ->]].
    + destruct (IH df1 df' texts Hstep Hrun) as (Hidx & Hflags & Hframe & [extra Hcols]).
      split; [exact Hidx|]. split; [|split].
      * intros k' [<- | Hin]; [|now apply Hflags].
        destruct (in_dec string_dec k rest) as [Hin | Hnin]; [now apply Hflags|].
        rewrite Hframe.
        -- unfold df1. apply getitem_setitem_same.
        -- intros Hc. apply in_map_iff in Hc as [k2 [Hk2 Hin2]].
           apply flag_column_inj in Hk2. now subst k2.
      * intros c Hc. cbn [map In] in Hc.
        rewrite Hframe by tauto. unfold df1. apply getitem_setitem_other.
        intros ->. tauto.
      * destruct Hnames as [extra1 Hn]. exists (extra1 ++ extra).
        now rewrite Hcols, Hn, app_assoc.
    + split; [reflexivity|]. split; [|split].
      * intros k' [<- | []]. unfold df1. apply getitem_setitem_same.
      * intros c Hc. cbn [map In] in Hc. unfold df1. apply getitem_setitem_other.
        intros ->. tauto.
      * exact Hnames.
Qed.

(** The loop returns when the text column holds strings and is none of
    the flag columns. *)
Lemma keyword_loop_runs (text_column column_prefix : string) (keywords : list string) :
  forall (df : DataFrame) (texts : list string),
    getitem df text_column = Ok (map VStr texts) ->
    ~ In text_column (map (flag_column column_prefix) keywords) ->
    exists df', keyword_loop df text_column keywords column_prefix = Ok df'.
Proof.
  induction keywords as [| k rest IH]; intros df texts Htext Hnot.
  - now exists df.
  - cbn [keyword_loop]. rewrite Htext. cbn [bind].
    rewrite series_apply_keyword. cbn [bind].
    cbn [map In] in Hnot. apply (IH _ texts); [|tauto].
    rewrite getitem_setitem_other; [exact Htext | intros ->; tauto].
Qed.

Lemma getitem_list_flags (df : DataFrame) (column_prefix : string)
    (keywords : list string) (texts : list string) :
  (forall k, In k keywords ->
     getitem df (flag_column column_prefix k) = Ok (flag_series k texts)) ->
  getitem_list df (map (flag_column column_prefix) keywords)
  = Ok (map (fun k => flag_series k texts) keywords).
Proof.
  induction keywords as [| k rest IH]; intros H; [reflexivity|].
  cbn [map getitem_list]. rewrite H by now left. cbn [bind].
  rewrite IH; [reflexivity|]. intros k' Hk'. apply H. now right.
Qed.

Lemma all_ints_flags (keywords : list string) (texts : list string) :
  all_ints (map (fun k => flag_series k texts) keywords)
  = Ok (map (fun k => map (keyword_flag k) texts) keywords).
Proof.
  induction keywords as [| k rest IH]; [reflexivity|].
  cbn [map all_ints]. rewrite series_ints_flags. cbn [bind]. now rewrite IH.
Qed.

(** Row [i] of the flag columns, read across the keywords. *)
Lemma rows_of_flag_columns (keywords : list string) (texts : list string) (g : list Z -> value) :
  map (fun i => g (map (fun zs => nth i zs 0%Z)
                       (map (fun k => map (keyword_flag k) texts) keywords)))
      (seq 0 (List.length texts))
  = map (fun x => g (map (fun k => keyword_flag k x) keywords)) texts.
Proof.
  induction texts as [| t ts IH]; [reflexivity|].
  cbn [List.length seq map]. f_equal.
  - f_equal. rewrite map_map. reflexivity.
  - rewrite <- seq_shift, map_map. rewrite <- IH.
    apply map_ext. intros i. f_equal. rewrite !map_map. reflexivity.
Qed.

(** The score of a record with text [x]: the [int64] sum of its flags,
    and the float [0.0] when there is no keyword. *)
Definition row_score (keywords : list string) (x : string) : value :=
  match keywords with
  | [] => VFloat 0
  | _ :: _ => VInt (Zsum (map (fun k => keyword_flag k x) keywords))
  end.

Definition score_series (keywords : list string) (texts : list string) : Series :=
  map (row_score keywords) texts.

Lemma repeat_map {A B : Type} (b : B) (l : list A) :
  repeat b (List.length l) = map (fun _ => b) l.
Proof. induction l as [| x l IH]; cbn; [reflexivity | now rewrite IH]. Qed.

Lemma sum_axis1_flags (keywords : list string) (texts : list string) :
  sum_axis1 (List.length texts) (map (fun k => flag_series k texts) keywords)
  = Ok (score_series keywords texts).
Proof.
  destruct keywords as [| k0 rest].
  - cbn [map sum_axis1]. now rewrite repeat_map.
  - set (keywords := k0 :: rest).
    change (sum_axis1 (List.length texts) (map (fun k => flag_series k texts) keywords))
      with (zss <- all_ints (map (fun k => flag_series k texts) keywords) ;;
            Ok (map (fun i => VInt (Zsum (map (fun zs => nth i zs 0%Z) zss)))
                    (seq 0 (List.length texts)))).
    rewrite all_ints_flags. cbn [bind].
    now rewrite (rows_of_flag_columns keywords texts (fun zs => VInt (Zsum zs))).
Qed.

(** With fewer than [2^63] keywords, as in any Python list, the score
    of a record is the number of keywords flagged on its text. *)
Lemma score_series_counts (keywords : list string) (texts : list string) :
  keywords <> [] ->
  (Z.of_nat (List.length keywords) < 2 ^ 63)%Z ->
  score_series keywords texts
  = map (fun x => VInt (Z.of_nat (matching_keywords keywords x))) texts.
Proof.
  intros Hne Hlen. unfold score_series. apply map_ext. intros x.
  destruct keywords as [| k rest]; [now elim Hne|].
  unfold row_score. now rewrite Zsum_flags.
Qed.

Lemma length_flag_series (keyword : string) (texts : list string) :
  List.length (flag_series keyword texts) = List.length texts.
Proof. apply length_map. Qed.

(** Whenever [keyword_analysis] returns: the row count and the other
    columns are kept, the score column counts the keywords that occur
    in the text, and a flag column holds the flags of its keyword unless
    it is the score column. *)
Lemma keyword_analysis_inv (df df' : DataFrame) (text_column column_prefix : string)
    (keywords : list string) (texts : list string) :
  wf df ->
  getitem df text_column = Ok (map VStr texts) ->
  keyword_analysis df text_column keywords column_prefix = Ok df' ->
  index df' = index df
  /\ getitem df' (score_column column_prefix) = Ok (score_series keywords texts)
  /\ (forall k, In k keywords -> k <> "score" ->
        getitem df' (flag_column column_prefix k) = Ok (flag_series k texts))
  /\ (forall c, ~ In c (map (flag_column column_prefix) keywords) ->
        c <> score_column column_prefix -> getitem df' c = getitem df c)
  /\ (exists extra, map fst (columns df') = map fst (columns df) ++ extra).
Proof.
  intros Hwf Htext Hrun. unfold keyword_analysis in Hrun.
  apply bind_Ok in Hrun as [df1 [Hloop Hrun]].
  destruct (keyword_loop_inv _ _ _ _ _ _ Htext Hloop) as (Hidx & Hflags & Hframe & Hnames).
  rewrite (getitem_list_flags _ _ _ texts Hflags) in Hrun. cbn [bind] in Hrun.
  assert (Hlen : index df1 = List.length texts).
  { rewrite Hidx, <- (wf_getitem _ _ _ Hwf Htext). apply length_map. }
  rewrite Hlen, sum_axis1_flags in Hrun. cbn [bind] in Hrun. injection Hrun as <-.
  split; [exact Hidx|]. split; [apply getitem_setitem_same|]. split; [|split].
  - intros k Hin Hk. rewrite getitem_setitem_other; [now apply Hflags|].
    now rewrite flag_column_score.
  - intros c Hc Hs. rewrite getitem_setitem_other by exact Hs. now apply Hframe.
  - destruct Hnames as [extra1 Hn].
    destruct (setitem_column_names df1 (score_column column_prefix)
                (score_series keywords texts)) as [extra2 Hs].
    exists (extra1 ++ extra2). now rewrite Hs, Hn, app_assoc.
Qed.

Lemma keyword_analysis_runs (df : DataFrame) (text_column column_prefix : string)
    (keywords : list string) (texts : list string) :
  wf df ->
  getitem df text_column = Ok (map VStr texts) ->
  ~ In text_column (map (flag_column column_prefix) keywords) ->
  exists df', keyword_analysis df text_column keywords column_prefix = Ok df'.
Proof.
  intros Hwf Htext Hnot.
  destruct (keyword_loop_runs _ _ _ _ _ Htext Hnot) as [df1 Hloop].
  destruct (keyword_loop_inv _ _ _ _ _ _ Htext Hloop) as (Hidx & Hflags & _).
  unfold keyword_analysis. rewrite Hloop. cbn [bind].
  rewrite (getitem_list_flags _ _ _ texts Hflags). cbn [bind].
  assert (Hlen : index df1 = List.length texts).
  { rewrite Hidx, <- (wf_getitem _ _ _ Hwf Htext). apply length_map. }
  rewrite Hlen, sum_axis1_flags. cbn [bind]. eauto.
Qed.

Lemma length_infer_column (cells : Series) :
  List.length (infer_column cells) = List.length cells.
Proof.
  unfold infer_column. destruct (_ && _); [apply length_map | reflexivity].
Qed.

(** A column without a float and without a missing cell is kept as it
    is. *)
Lemma infer_column_exact {A : Type} (f : A -> value) (l : list A) :
  (forall x, is_float (f x) = false) -> infer_column (map f l) = map f l.
Proof.
  intros H. unfold infer_column.
  replace (existsb is_float (map f l)) with false; [now rewrite andb_false_r|].
  induction l as [| x l IH]; [reflexivity|]. cbn [map existsb]. now rewrite H.
Qed.

Lemma wf_pd_DataFrame (records : list dict) : wf (pd_DataFrame records).
Proof.
  unfold wf, pd_DataFrame; simpl.
  apply Forall_forall. intros c Hc. apply in_map_iff in Hc as [k [<- _]].
  simpl. rewrite length_infer_column. apply length_map.
Qed.

Lemma series_ints_VInt (zs : list Z) : series_ints (map VInt zs) = Ok zs.
Proof. induction zs as [| z zs IH]; simpl; [reflexivity|]. now rewrite IH. Qed.

(** The frame of [keyword_loop] and of [keyword_analysis] on any input. *)
Lemma keyword_loop_frame (text_column column_prefix : string) (keywords : list string) :
  forall (df df' : DataFrame),
    keyword_loop df text_column keywords column_prefix = Ok df' ->
    index df' = index df
    /\ (forall c, ~ In c (map (flag_column column_prefix) keywords) ->
          getitem df' c = getitem df c)
    /\ (exists extra, map fst (columns df') = map fst (columns df) ++ extra).
Proof.
  induction keywords as [| k rest IH]; intros df df' Hrun.
  - injection Hrun as <-. split; [reflexivity|]. split; [reflexivity|].
    exists []. now rewrite app_nil_r.
  - cbn [keyword_loop] in Hrun.
    apply bind_Ok in Hrun as [col [_ Hrun]].
    apply bind_Ok in Hrun as [flags [_ Hrun]].
    destruct (IH _ _ Hrun) as (Hidx & Hframe & [extra Hcols]).
    split; [exact Hidx|]. split.
    + intros c Hc. cbn [map In] in Hc. rewrite Hframe by tauto.
      apply getitem_setitem_other. intros ->. tauto.
    + destruct (setitem_column_names df (flag_column column_prefix k) flags) as [extra1 Hn].
      exists (extra1 ++ extra). now rewrite Hcols, Hn, app_assoc.
Qed.

Lemma keyword_analysis_frame (df df' : DataFrame) (text_column column_prefix : string)
    (keywords : list string) :
  keyword_analysis df text_column keywords column_prefix = Ok df' ->
  len df' = len df
  /\ (forall c, ~ In c (map (flag_column column_prefix) keywords) ->
        c <> score_column column_prefix -> getitem df' c = getitem df c)
  /\ (exists extra, map fst (columns df') = map fst (columns df) ++ extra).
Proof.
  unfold keyword_analysis, len. intros Hrun.
  apply bind_Ok in Hrun as [df1 [Hloop Hrun]].
  apply bind_Ok in Hrun as [cols [_ Hrun]].
  apply bind_Ok in Hrun as [score [_ Hrun]]. injection Hrun as <-.
  destruct (keyword_loop_frame _ _ _ _ _ Hloop) as (Hidx & Hframe & [extra1 Hn]).
  split; [exact Hidx|]. split.
  - intros c Hc Hs. rewrite getitem_setitem_other by exact Hs. now apply Hframe.
  - destruct (setitem_column_names df1 (score_column column_prefix) score) as [extra2 Hs].
    exists (extra1 ++ extra2). now rewrite Hs, Hn, app_assoc.
Qed.

Section Sentiment.

Variable polarity : string -> float.

Lemma series_apply_sentiment (texts : list string) :
  series_apply (sentiment_lambda polarity) (map VStr texts)
  = Ok (map (fun x => VFloat (polarity x)) texts).
Proof.
  induction texts as [| t ts IH]; simpl; [reflexivity|]. now rewrite IH.
Qed.

Lemma sentiment_analysis_frame (df df' : DataFrame) (text_column : string) :
  sentiment_analysis polarity df text_column = Ok df' ->
  len df' = len df
  /\ (forall c, c <> "sentiment" -> getitem df' c = getitem df c)
  /\ (exists extra, map fst (columns df') = map fst (columns df) ++ extra).
Proof.
  unfold sentiment_analysis. intros Hrun.
  apply bind_Ok in Hrun as [col [_ Hrun]].
  apply bind_Ok in Hrun as [sentiment [_ Hrun]]. injection Hrun as <-.
  split; [reflexivity|]. split.
  - intros c Hc. now apply getitem_setitem_other.
  - apply setitem_column_names.
Qed.

Lemma sentiment_analysis_runs (df : DataFrame) (text_column : string) (texts : list string) :
  getitem df text_column = Ok (map VStr texts) ->
  sentiment_analysis polarity df text_column
  = Ok (setitem df "sentiment" (map (fun x => VFloat (polarity x)) texts)).
Proof.
  intros H. unfold sentiment_analysis. rewrite H. cbn [bind].
  now rewrite series_apply_sentiment.
Qed.

End Sentiment.

(** ** The aggregator *)

Lemma series_sum_VInt (zs : list Z) : series_sum (map VInt zs) = Ok (VInt (Zsum zs)).
Proof.
  destruct zs as [| z zs]; [reflexivity|].
  unfold series_sum. cbn [map]. rewrite <- (map_cons VInt), series_ints_VInt. reflexivity.
Qed.

Lemma series_floats_VFloat {A : Type} (f : A -> float) (l : list A) :
  series_floats (map (fun x => VFloat (f x)) l) = Ok (map f l).
Proof. induction l as [| x l IH]; cbn; [reflexivity | now rewrite IH]. Qed.

Lemma fsum_zeros {A : Type} (l : list A) : fsum (map (fun _ => 0%float) l) = 0%float.
Proof.
  unfold fsum. induction l as [| x l IH]; [reflexivity|].
  cbn [map fold_left].
  change (if PrimFloat.is_nan 0 then 0%float else (0 + 0)%float) with 0%float.
  exact IH.
Qed.

Lemma calculate_signal_strength_value (df : DataFrame) (column_prefix : string)
    (scores : list Z) :
  getitem df (score_column column_prefix) = Ok (map VInt scores) ->
  (0 < len df)%nat ->
  calculate_signal_strength df column_prefix
  = Ok (VFloat (float_of_Z (Zsum scores) / float_of_Z (Z.of_nat (len df))
                * float_of_Z 100)).
Proof.
  intros Hcol Hlen. unfold calculate_signal_strength.
  rewrite Hcol. cbn [bind]. rewrite series_sum_VInt. cbn [bind].
  apply Nat.ltb_lt in Hlen. now rewrite Hlen.
Qed.

(** The signal strength of the texts [texts] for a keyword list: 100
    times the keyword occurrences per text. *)
Definition strength (keywords : list string) (texts : list string) : float :=
  float_of_Z (Zsum (map (fun x => Z.of_nat (matching_keywords keywords x)) texts))
  / float_of_Z (Z.of_nat (List.length texts)) * float_of_Z 100.

(** The aggregator on the scores that the annotator stores. *)
Lemma calculate_signal_strength_scores (df : DataFrame) (column_prefix : string)
    (keywords : list string) (texts : list string) :
  getitem df (score_column column_prefix) = Ok (score_series keywords texts) ->
  len df = List.length texts ->
  texts <> [] ->
  calculate_signal_strength df column_prefix = Ok (VFloat (strength keywords texts)).
Proof.
  intros Hcol Hlen Hne. unfold strength.
  assert (Hpos : (0 <? len df)%nat = true).
  { apply Nat.ltb_lt. rewrite Hlen. destruct texts; [now elim Hne | cbn; lia]. }
  destruct keywords as [| k rest].
  - unfold calculate_signal_strength. rewrite Hcol. cbn [bind].
    assert (Hsum : series_sum (score_series [] texts) = Ok (VFloat 0)).
    { destruct texts as [| t texts]; [now elim Hne|].
      change (series_sum (score_series [] (t :: texts)))
        with (fs <- series_floats (map (fun _ : string => VFloat 0%float) (t :: texts)) ;;
              Ok (VFloat (fsum fs))).
      rewrite series_floats_VFloat. cbn [bind]. now rewrite fsum_zeros. }
    rewrite Hsum. cbn [bind]. rewrite Hpos. cbn [to_float bind]. rewrite Hlen.
    replace (Zsum (map (fun x => Z.of_nat (matching_keywords [] x)) texts)) with 0%Z.
    + reflexivity.
    + clear. unfold Zsum. replace (Ztotal _) with 0%Z; [reflexivity|].
      induction texts as [| t texts IH]; [reflexivity|]. cbn. exact IH.
  - set (keywords := k :: rest) in *.
    assert (Hs : score_series keywords texts
                 = map VInt (map (fun x => Zsum (map (fun k => keyword_flag k x) keywords))
                                 texts)).
    { unfold score_series. now rewrite map_map. }
    rewrite Hs in Hcol.
    rewrite (calculate_signal_strength_value _ _ _ Hcol) by now apply Nat.ltb_lt.
    rewrite Hlen, (Zsum_rows (fun x => map (fun k => keyword_flag k x) keywords)).
    rewrite (map_ext _ (fun x => Z.of_nat (matching_keywords keywords x)));
      [reflexivity|]. intros x. apply Ztotal_flags.
Qed.

Lemma calculate_signal_strength_empty (df : DataFrame) (column_prefix : string)
    (col : Series) :
  wf df -> len df = 0%nat ->
  getitem df (score_column column_prefix) = Ok col ->
  calculate_signal_strength df column_prefix = Ok (VInt 0).
Proof.
  intros Hwf Hlen Hcol. unfold calculate_signal_strength.
  rewrite Hcol. cbn [bind].
  assert (Hnil : col = []).
  { apply length_zero_iff_nil. rewrite (wf_getitem _ _ _ Hwf Hcol). exact Hlen. }
  subst col. cbn. rewrite Hlen. reflexivity.
Qed.

Lemma series_sum_no_division_error (s : Series) :
  series_sum s <> Raise ZeroDivisionError.
Proof.
  assert (Hi : forall s, series_ints s <> Raise ZeroDivisionError).
  { induction s0 as [| v s0 IH]; simpl; [discriminate|].
    destruct v; try discriminate.
    destruct (series_ints s0) as [zs | e]; cbn [bind]; [discriminate|].
    intros [= ->]. now apply IH. }
  assert (Hf : forall s, series_floats s <> Raise ZeroDivisionError).
  { induction s0 as [| v s0 IH]; simpl; [discriminate|].
    destruct v; try discriminate.
    destruct (series_floats s0) as [fs | e]; cbn [bind]; [discriminate|].
    intros [= ->]. now apply IH. }
  unfold series_sum. destruct s as [| v s'].
  - discriminate.
  - destruct v.
    + specialize (Hi (VInt z :: s')).
      destruct (series_ints (VInt z :: s')) as [zs | e]; cbn [bind]; [discriminate|].
      intros [= ->]. now apply Hi.
    + specialize (Hf (VFloat f :: s')).
      destruct (series_floats (VFloat f :: s')) as [fs | e]; cbn [bind]; [discriminate|].
      intros [= ->]. now apply Hf.
    + discriminate.
    + discriminate.
Qed.

Lemma calculate_signal_strength_no_division_error (df : DataFrame) (column_prefix : string) :
  calculate_signal_strength df column_prefix <> Raise ZeroDivisionError.
Proof.
  unfold calculate_signal_strength, getitem.
  destruct (lookup _ _) as [col |]; cbn [bind]; [|discriminate].
  pose proof (series_sum_no_division_error col) as H.
  destruct (series_sum col) as [v | e]; cbn [bind].
  - destruct (0 <? len df)%nat; [|discriminate].
    destruct v; cbn [to_float bind]; discriminate.
  - intros [= ->]. now apply H.
Qed.

(** ** Regular expressions *)

(** The character before the position reached after [w]. *)
Definition last_char (prev : option ascii) (w : list ascii) : option ascii :=
  fold_left (fun _ c => Some c) w prev.

(** [matches r prev w rest]: [r] matches the characters [w] when the
    character before them is [prev] and the input goes on with [rest]. *)
Inductive matches : regex -> option ascii -> list ascii -> list ascii -> Prop :=
| M_Eps prev rest : matches Eps prev [] rest
| M_Chr c prev rest : matches (Chr c) prev [c] rest
| M_Cls p c prev rest : p c = true -> matches (Cls p) prev [c] rest
| M_Rep1 p w prev rest :
    w <> [] -> Forall (fun c => p c = true) w -> matches (Rep1 p) prev w rest
| M_Cat r1 r2 prev w1 w2 rest :
    matches r1 prev w1 (w2 ++ rest) ->
    matches r2 (last_char prev w1) w2 rest ->
    matches (Cat r1 r2) prev (w1 ++ w2) rest
| M_AltL r1 r2 prev w rest : matches r1 prev w rest -> matches (Alt r1 r2) prev w rest
| M_AltR r1 r2 prev w rest : matches r2 prev w rest -> matches (Alt r1 r2) prev w rest
| M_WordB prev rest : at_boundary prev rest = true -> matches WordB prev [] rest.

Lemma last_char_app (prev : option ascii) (w1 w2 : list ascii) :
  last_char prev (w1 ++ w2) = last_char (last_char prev w1) w2.
Proof. apply fold_left_app. Qed.

Lemma rep1_sound {A : Type} (p : ascii -> bool)
    (k : nat -> option ascii -> list ascii -> option A) (out : A) :
  forall (s : list ascii) (i : nat) (prev : option ascii),
    rep1 p i s k = Some out ->
    exists w rest,
      s = w ++ rest /\ w <> [] /\ Forall (fun c => p c = true) w
      /\ k (i + List.length w)%nat (last_char prev w) rest = Some out.
Proof.
  induction s as [| c s IH]; intros i prev H; [discriminate|].
  cbn [rep1] in H. destruct (p c) eqn:Hp; [|discriminate].
  destruct (rep1 p (S i) s k) as [out' |] eqn:Hmore.
  - injection H as ->.
    destruct (IH (S i) (Some c) Hmore) as (w & rest & -> & _ & Hall & Hk).
    exists (c :: w), rest. split; [reflexivity|]. split; [discriminate|].
    split; [now constructor|].
    cbn [List.length]. rewrite Nat.add_succ_r. exact Hk.
  - exists [c], s. split; [reflexivity|]. split; [discriminate|].
    split; [now repeat constructor|].
    cbn [List.length]. rewrite Nat.add_1_r. exact H.
Qed.

(** The matcher finds only what the pattern describes. *)
Lemma rmatch_sound {A : Type} (r : regex) :
  forall (i : nat) (prev : option ascii) (s : list ascii)
         (k : nat -> option ascii -> list ascii -> option A) (out : A),
    rmatch r i prev s k = Some out ->
    exists w rest,
      s = w ++ rest /\ matches r prev w rest
      /\ k (i + List.length w)%nat (last_char prev w) rest = Some out.
Proof.
  induction r as [| c | p | p | r1 IH1 r2 IH2 | r1 IH1 r2 IH2 |];
    intros i prev s k out H; cbn [rmatch] in H.
  - exists [], s. split; [reflexivity|]. split; [constructor|].
    cbn. now rewrite Nat.add_0_r.
  - destruct s as [| a s]; [discriminate|].
    destruct (Ascii.eqb a c) eqn:E; [|discriminate].
    apply Ascii.eqb_eq in E. subst a.
    exists [c], s. split; [reflexivity|]. split; [constructor|].
    cbn. now rewrite Nat.add_1_r.
  - destruct s as [| a s]; [discriminate|].
    destruct (p a) eqn:E; [|discriminate].
    exists [a], s. split; [reflexivity|]. split; [now constructor|].
    cbn. now rewrite Nat.add_1_r.
  - destruct (rep1_sound p k out s i prev H) as (w & rest & -> & Hne & Hall & Hk).
    exists w, rest. split; [reflexivity|]. split; [now constructor|]. exact Hk.
  - destruct (IH1 _ _ _ _ _ H) as (w1 & rest1 & -> & M1 & H2).
    destruct (IH2 _ _ _ _ _ H2) as (w2 & rest & -> & M2 & Hk).
    exists (w1 ++ w2), rest. split; [now rewrite app_assoc|].
    split; [now constructor|].
    rewrite length_app, Nat.add_assoc, last_char_app. exact Hk.
  - destruct (rmatch r1 i prev s k) as [out' |] eqn:E.
    + injection H as ->.
      destruct (IH1 _ _ _ _ _ E) as (w & rest & -> & M & Hk).
      exists w, rest. split; [reflexivity|]. split; [now apply M_AltL | exact Hk].
    + destruct (IH2 _ _ _ _ _ H) as (w & rest & -> & M & Hk).
      exists w, rest. split; [reflexivity|]. split; [now apply M_AltR | exact Hk].
  - destruct (at_boundary prev s) eqn:E; [|discriminate].
    exists [], s. split; [reflexivity|]. split; [now constructor|].
    cbn. now rewrite Nat.add_0_r.
Qed.

Lemma match_len_sound (r : regex) (prev : option ascii) (s : list ascii) (n : nat) :
  match_len r prev s = Some n ->
  exists w rest, s = w ++ rest /\ matches r prev w rest /\ n = List.length w
                 /\ firstn n s = w.
Proof.
  unfold match_len. intros H.
  destruct (rmatch_sound r _ _ _ _ _ H) as (w & rest & -> & M & Hn).
  injection Hn as <-. exists w, rest. repeat split; auto.
  cbn [Nat.add]. rewrite firstn_app, firstn_all, Nat.sub_diag. cbn. apply app_nil_r.
Qed.

(** Every string that the scan returns is a match at some position. *)
Lemma scan_sound (r : regex) (w : list ascii) :
  forall (s : list ascii) (skip : nat) (prev : option ascii),
    In w (scan r skip prev s) ->
    exists prev' rest, matches r prev' w rest.
Proof.
  induction s as [| c s IH]; intros skip prev H; [destruct H|].
  cbn [scan] in H. destruct skip as [| n]; [|now apply IH in H].
  destruct (match_len r prev (c :: s)) as [[| n] |] eqn:E;
    try (now apply IH in H).
  destruct H as [<- | H]; [|now apply IH in H].
  destruct (match_len_sound _ _ _ _ E) as (w & rest & _ & M & _ & ->).
  now exists prev, rest.
Qed.

Lemma matches_Lit (l : list ascii) :
  forall prev w rest, matches (Lit l) prev w rest -> w = l.
Proof.
  induction l as [| c l IH]; intros prev w rest M.
  - now inversion M.
  - destruct l as [| c2 l].
    + now inversion M.
    + change (Lit (c :: c2 :: l)) with (Cat (Chr c) (Lit (c2 :: l))) in M.
      inversion M as [| | | | r1 r2 prev' w1 w2 rest' M1 M2 | | |]; subst.
      inversion M1; subst. apply IH in M2. now subst.
Qed.

(** The words after which the pattern accepts a name. *)
Definition SUFFIXES : list string := ["Inc"; "Corp"; "Co"; "Ltd"].

Lemma matches_company_pattern (prev : option ascii) (w rest : list ascii) :
  matches company_pattern prev w rest ->
  exists u ls suffix,
    w = u :: ls ++ " "%char :: list_ascii_of_string suffix
    /\ is_upper u = true
    /\ ls <> []
    /\ Forall (fun c => is_lower c = true) ls
    /\ In suffix SUFFIXES.
Proof.
  unfold company_pattern. intros M.
  inversion M as [| | | | ? ? ? w0 w1 ? M0 M1 | | |]; subst; clear M.
  inversion M0; subst; clear M0.
  inversion M1 as [| | | | ? ? ? w2 w3 ? M2 M3 | | |]; subst; clear M1.
  inversion M2 as [| | ? u ? ? Hu | | | | |]; subst; clear M2.
  inversion M3 as [| | | | ? ? ? w4 w5 ? M4 M5 | | |]; subst; clear M3.
  inversion M4 as [| | | ? ls ? ? Hne Hall | | | |]; subst; clear M4.
  inversion M5 as [| | | | ? ? ? w6 w7 ? M6 M7 | | |]; subst; clear M5.
  inversion M6; subst; clear M6.
  inversion M7 as [| | | | ? ? ? w8 w9 ? M8 M9 | | |]; subst; clear M7.
  inversion M9; subst; clear M9.
  assert (Hs : exists suffix, w8 = list_ascii_of_string suffix /\ In suffix SUFFIXES).
  { unfold word in M8.
    inversion M8 as [| | | | | ? ? ? ? ? Ma | ? ? ? ? ? Mb |]; subst; clear M8.
    - apply (matches_Lit (list_ascii_of_string "Inc")) in Ma. exists "Inc". split; [exact Ma | cbn; tauto].
    - inversion Mb as [| | | | | ? ? ? ? ? Ma | ? ? ? ? ? Mc |]; subst; clear Mb.
      + apply (matches_Lit (list_ascii_of_string "Corp")) in Ma. exists "Corp". split; [exact Ma | cbn; tauto].
      + inversion Mc as [| | | | | ? ? ? ? ? Ma | ? ? ? ? ? Md |]; subst; clear Mc.
        * apply (matches_Lit (list_ascii_of_string "Co")) in Ma. exists "Co". split; [exact Ma | cbn; tauto].
        * apply (matches_Lit (list_ascii_of_string "Ltd")) in Md. exists "Ltd". split; [exact Md | cbn; tauto]. }
  destruct Hs as (suffix & -> & Hin).
  exists u, w4, suffix. cbn [app]. rewrite app_nil_r. repeat split; auto.
Qed.

Lemma string_of_list_ascii_app (a b : list ascii) :
  string_of_list_ascii (a ++ b) = string_of_list_ascii a +++ string_of_list_ascii b.
Proof. induction a as [| c a IH]; simpl; [reflexivity | now rewrite IH]. Qed.

Lemma list_ascii_of_string_app (a b : string) :
  list_ascii_of_string (a +++ b) = list_ascii_of_string a ++ list_ascii_of_string b.
Proof. induction a as [| c a IH]; simpl; [reflexivity | now rewrite IH]. Qed.

(** One capitalized word, one space, one suffix token. *)
Definition company_shape (x : string) : Prop :=
  exists (u : ascii) (ls suffix : string),
    x = String u ls +++ " " +++ suffix
    /\ is_upper u = true
    /\ ls <> ""
    /\ Forall (fun c => is_lower c = true) (list_ascii_of_string ls)
    /\ In suffix SUFFIXES.

Lemma extract_companies_shape (text x : string) :
  In x (extract_companies text) -> company_shape x.
Proof.
  unfold extract_companies, findall. intros H.
  apply in_map_iff in H as (w & <- & Hw).
  apply scan_sound in Hw as (prev & rest & M).
  apply matches_company_pattern in M as (u & ls & suffix & -> & Hu & Hne & Hall & Hin).
  exists u, (string_of_list_ascii ls), suffix.
  split; [|split; [exact Hu|split; [|split; [|exact Hin]]]].
  - cbn [string_of_list_ascii]. rewrite string_of_list_ascii_app.
    cbn [string_of_list_ascii]. rewrite string_of_list_ascii_of_string. reflexivity.
  - destruct ls; [now elim Hne | discriminate].
  - now rewrite list_ascii_of_string_of_list_ascii.
Qed.

Definition spaces (x : string) : nat :=
  count_occ ascii_dec (list_ascii_of_string x) " "%char.

Lemma lower_no_space (l : list ascii) :
  Forall (fun c => is_lower c = true) l -> count_occ ascii_dec l " "%char = 0%nat.
Proof.
  induction 1 as [| c l Hc _ IH]; [reflexivity|].
  cbn [count_occ]. destruct (ascii_dec c " ") as [-> | _]; [discriminate | exact IH].
Qed.

Lemma company_shape_one_space (x : string) : company_shape x -> spaces x = 1%nat.
Proof.
  intros (u & ls & suffix & -> & Hu & _ & Hall & Hin). unfold spaces.
  cbn [append list_ascii_of_string]. rewrite list_ascii_of_string_app.
  cbn [count_occ]. destruct (ascii_dec u " ") as [-> | _]; [discriminate|].
  rewrite count_occ_app, (lower_no_space _ Hall).
  destruct Hin as [<- | [<- | [<- | [<- | []]]]]; reflexivity.
Qed.

(** ** The tally of entities *)

(** The position at which [x] is first encountered in [items] (their
    number when it never is). *)
Fixpoint index_of (x : string) (items : list string) : nat :=
  match items with
  | [] => 0
  | y :: rest => if String.eqb x y then 0 else S (index_of x rest)
  end.

Lemma index_of_lt (x : string) (items : list string) :
  In x items <-> (index_of x items < List.length items)%nat.
Proof.
  induction items as [| y rest IH]; simpl; [split; [tauto | lia]|].
  destruct (String.eqb x y) eqn:E.
  - apply String.eqb_eq in E. split; [lia | auto].
  - apply String.eqb_neq in E. rewrite <- Nat.succ_lt_mono, <- IH.
    split; [intros [H | H]; [congruence | exact H] | auto].
Qed.

Lemma index_of_app_in (x : string) (items more : list string) :
  In x items -> index_of x (items ++ more) = index_of x items.
Proof.
  induction items as [| y rest IH]; simpl; [tauto|].
  destruct (String.eqb x y) eqn:E; [reflexivity|].
  apply String.eqb_neq in E. intros [H | H]; [congruence | now rewrite IH].
Qed.

Lemma index_of_new (x : string) (items : list string) :
  ~ In x items -> index_of x (items ++ [x]) = List.length items.
Proof.
  induction items as [| y rest IH]; simpl; intros H.
  - now rewrite String.eqb_refl.
  - destruct (String.eqb x y) eqn:E.
    + apply String.eqb_eq in E. subst. tauto.
    + rewrite IH; tauto.
Qed.

Lemma StronglySorted_impl_in {A : Type} (R R' : A -> A -> Prop) (l : list A) :
  (forall a b, In a l -> In b l -> R a b -> R' a b) ->
  StronglySorted R l -> StronglySorted R' l.
Proof.
  induction l as [| x l IH]; intros Himp H; [constructor|].
  inversion H as [| ? ? Hs Hall]; subst. constructor.
  - apply IH; [|exact Hs]. intros a b Ha Hb. apply Himp; now right.
  - rewrite Forall_forall in *. intros b Hb.
    apply Himp; [now left | now right | now apply Hall].
Qed.

Lemma StronglySorted_snoc {A : Type} (R : A -> A -> Prop) (l : list A) (x : A) :
  StronglySorted R l -> Forall (fun a => R a x) l -> StronglySorted R (l ++ [x]).
Proof.
  induction l as [| y l IH]; intros Hs Hall; simpl.
  - repeat constructor.
  - inversion Hs as [| ? ? Hs' Hy]; subst. inversion Hall as [| ? ? Hyx Hall']; subst.
    constructor; [now apply IH|].
    apply Forall_app. split; [exact Hy | now constructor].
Qed.

Lemma StronglySorted_map_inv {A B : Type} (f : A -> B) (R : B -> B -> Prop) (l : list A) :
  StronglySorted R (map f l) -> StronglySorted (fun a b => R (f a) (f b)) l.
Proof.
  induction l as [| x l IH]; intros H; [constructor|].
  cbn [map] in H. inversion H as [| ? ? Hs Hall]; subst.
  constructor; [now apply IH|]. now rewrite Forall_map in Hall.
Qed.

Lemma StronglySorted_firstn {A : Type} (R : A -> A -> Prop) (n : nat) (l : list A) :
  StronglySorted R l -> StronglySorted R (firstn n l).
Proof.
  revert l; induction n as [| n IH]; intros l H; [constructor|].
  destruct l as [| x l]; [constructor|].
  inversion H as [| ? ? Hs Hall]; subst. cbn [firstn]. constructor; [now apply IH|].
  rewrite Forall_forall in *. intros b Hb. apply Hall.
  rewrite <- (firstn_skipn n l). apply in_or_app. now left.
Qed.

Lemma StronglySorted_nth_error {A : Type} (R : A -> A -> Prop) (l : list A) :
  StronglySorted R l ->
  forall i j a b, (i < j)%nat -> nth_error l i = Some a -> nth_error l j = Some b -> R a b.
Proof.
  induction 1 as [| x l Hs IH Hall]; intros i j a b Hij Ha Hb.
  - destruct i; discriminate.
  - destruct j as [| j]; [lia|]. cbn [nth_error] in Hb.
    destruct i as [| i].
    + injection Ha as <-. rewrite Forall_forall in Hall.
      apply Hall. eapply nth_error_In; eassumption.
    + cbn [nth_error] in Ha. apply (IH i j); [lia | assumption | assumption].
Qed.

Definition keys (c : list (string * nat)) : list string := map fst c.

Lemma keys_counter_add (x : string) (c : list (string * nat)) :
  keys (counter_add x c) = if in_dec string_dec x (keys c) then keys c else keys c ++ [x].
Proof.
  unfold keys. induction c as [| [y n] c IH]; cbn [counter_add map fst].
  - destruct (in_dec string_dec x []) as [[] | _]. reflexivity.
  - destruct (String.eqb x y) eqn:E.
    + apply String.eqb_eq in E. subst y. cbn [map fst].
      destruct (in_dec string_dec x (x :: map fst c)) as [_ | H]; [reflexivity|].
      elim H. now left.
    + apply String.eqb_neq in E. cbn [map fst]. rewrite IH.
      destruct (in_dec string_dec x (map fst c)) as [H | H];
        destruct (in_dec string_dec x (y :: map fst c)) as [H' | H']; try reflexivity.
      * elim H'. now right.
      * destruct H' as [H' | H']; [congruence | tauto].
Qed.

Lemma lookup_counter_add (x y : string) (c : list (string * nat)) :
  lookup y (counter_add x c)
  = if String.eqb y x
    then Some (S (match lookup x c with Some n => n | None => 0 end))
    else lookup y c.
Proof.
  induction c as [| [z n] c IH]; cbn [counter_add lookup].
  - destruct (String.eqb y x); reflexivity.
  - destruct (String.eqb x z) eqn:E; cbn [lookup].
    + apply String.eqb_eq in E. subst z.
      destruct (String.eqb y x); reflexivity.
    + rewrite IH. destruct (String.eqb y z) eqn:F; [|reflexivity].
      apply String.eqb_eq in F. subst z.
      rewrite String.eqb_sym in E. now rewrite E.
Qed.

Lemma Counter_snoc (items : list string) (x : string) :
  Counter (items ++ [x]) = counter_add x (Counter items).
Proof. unfold Counter. now rewrite fold_left_app. Qed.

Lemma lookup_keys {A : Type} (x : string) (c : list (string * A)) :
  In x (map fst c) <-> exists n, lookup x c = Some n.
Proof.
  induction c as [| [y n] c IH]; cbn [map fst lookup In].
  - split; [tauto | intros [n H]; discriminate].
  - destruct (String.eqb x y) eqn:E.
    + apply String.eqb_eq in E. split; [now exists n | auto].
    + apply String.eqb_neq in E. rewrite <- IH.
      split; [intros [H | H]; [congruence | exact H] | auto].
Qed.

(** The tally holds every item once, in the order in which the items
    are first encountered, with its number of occurrences. *)
Lemma Counter_spec (items : list string) :
  (forall x, In x (keys (Counter items)) <-> In x items)
  /\ StronglySorted (fun a b => (index_of a items < index_of b items)%nat)
                    (keys (Counter items))
  /\ (forall x, In x items ->
        lookup x (Counter items) = Some (count_occ string_dec items x)).
Proof.
  induction items as [| x items (Hkeys & Hsorted & Hcount)] using rev_ind.
  - split; [tauto|]. split; [constructor | intros x []].
  - rewrite Counter_snoc, keys_counter_add.
    assert (Hin : forall y, In y (if in_dec string_dec x (keys (Counter items))
                                  then keys (Counter items)
                                  else keys (Counter items) ++ [x])
                            <-> In y (items ++ [x])).
    { intros y. rewrite in_app_iff.
      destruct (in_dec string_dec x (keys (Counter items))) as [H | H].
      - rewrite Hkeys. split; [tauto|]. intros [Hy | [<- | []]]; [exact Hy|].
        now apply Hkeys.
      - rewrite in_app_iff, Hkeys. tauto. }
    split; [exact Hin|]. split.
    + assert (Hold : StronglySorted
                (fun a b => (index_of a (items ++ [x]) < index_of b (items ++ [x]))%nat)
                (keys (Counter items))).
      { revert Hsorted. apply StronglySorted_impl_in. intros a b Ha Hb.
        apply Hkeys in Ha, Hb. now rewrite !index_of_app_in. }
      destruct (in_dec string_dec x (keys (Counter items))) as [H | H]; [exact Hold|].
      apply StronglySorted_snoc; [exact Hold|].
      apply Forall_forall. intros a Ha. apply Hkeys in Ha.
      rewrite index_of_app_in by exact Ha.
      rewrite index_of_new by (now rewrite <- Hkeys).
      now apply index_of_lt.
    + intros y Hy. rewrite lookup_counter_add, count_occ_app. cbn [count_occ].
      destruct (String.eqb y x) eqn:E.
      * apply String.eqb_eq in E. subst y.
        destruct (string_dec x x) as [_ | Hne]; [|now elim Hne].
        destruct (in_dec string_dec x items) as [Hx | Hx].
        -- rewrite (Hcount _ Hx). f_equal. lia.
        -- assert (Hnone : lookup x (Counter items) = None).
           { destruct (lookup x (Counter items)) eqn:L; [|reflexivity].
             elim Hx. apply Hkeys. apply lookup_keys. eauto. }
           rewrite Hnone. apply (count_occ_not_In string_dec) in Hx. rewrite Hx.
           reflexivity.
      * apply String.eqb_neq in E.
        destruct (string_dec x y) as [Heq | _]; [congruence|].
        rewrite Nat.add_0_r. apply Hcount.
        apply in_app_iff in Hy as [Hy | [Hy | []]]; [exact Hy | congruence].
Qed.

(** [p] is listed before [q]: it is more frequent, or as frequent and
    first encountered earlier in [items]. *)
Definition listed_before (items : list string) (p q : string * nat) : Prop :=
  (snd q < snd p)%nat
  \/ (snd p = snd q /\ (index_of (fst p) items < index_of (fst q) items)%nat).

Lemma Forall_insert_desc (P : string * nat -> Prop) (p : string * nat)
    (l : list (string * nat)) :
  Forall P (insert_desc p l) <-> P p /\ Forall P l.
Proof.
  induction l as [| q l IH]; cbn [insert_desc].
  - split; [intros H; inversion H; auto | intros [H1 H2]; now constructor].
  - destruct (snd q <=? snd p)%nat.
    + split; [intros H; inversion H; auto | intros [H1 H2]; now constructor].
    + split.
      * intros H. inversion H as [| ? ? Hq Hrest]; subst.
        apply IH in Hrest as [Hp Hl]. split; [exact Hp | now constructor].
      * intros [Hp Hql]. inversion Hql as [| ? ? Hq Hl]; subst.
        constructor; [exact Hq | apply IH; now split].
Qed.

Lemma Forall_sort_desc (P : string * nat -> Prop) (l : list (string * nat)) :
  Forall P (sort_desc l) <-> Forall P l.
Proof.
  induction l as [| p l IH]; cbn [sort_desc fold_right]; [tauto|].
  fold (sort_desc l). rewrite Forall_insert_desc, IH.
  split; [intros [H1 H2]; now constructor | intros H; inversion H; auto].
Qed.

Lemma insert_desc_sorted (items : list string) (p : string * nat)
    (l : list (string * nat)) :
  StronglySorted (listed_before items) l ->
  Forall (fun q => (index_of (fst p) items < index_of (fst q) items)%nat) l ->
  StronglySorted (listed_before items) (insert_desc p l).
Proof.
  induction l as [| q l IH]; intros Hs Hp; cbn [insert_desc].
  - repeat constructor.
  - inversion Hs as [| ? ? Hs' Hq]; subst. inversion Hp as [| ? ? Hpq Hp']; subst.
    destruct (snd q <=? snd p)%nat eqn:E.
    + apply Nat.leb_le in E. constructor; [exact Hs|].
      constructor.
      * unfold listed_before. lia.
      * rewrite Forall_forall in *. intros r Hr.
        specialize (Hq r Hr). specialize (Hp' r Hr).
        unfold listed_before in *. lia.
    + apply Nat.leb_gt in E. constructor; [now apply IH|].
      apply Forall_insert_desc. split; [|exact Hq].
      unfold listed_before. lia.
Qed.

(** The stable sort of entries that stand in first-encounter order. *)
Lemma sort_desc_sorted (items : list string) (l : list (string * nat)) :
  StronglySorted (fun p q => (index_of (fst p) items < index_of (fst q) items)%nat) l ->
  StronglySorted (listed_before items) (sort_desc l).
Proof.
  induction 1 as [| p l Hs IH Hall]; cbn [sort_desc fold_right]; [constructor|].
  fold (sort_desc l). apply insert_desc_sorted; [exact IH|].
  now apply Forall_sort_desc.
Qed.

Lemma most_common_sorted (n : nat) (items : list string) :
  StronglySorted (listed_before items) (most_common n (Counter items)).
Proof.
  unfold most_common. apply StronglySorted_firstn, sort_desc_sorted.
  apply (StronglySorted_map_inv fst
           (fun a b => (index_of a items < index_of b items)%nat)).
  apply Counter_spec.
Qed.

Lemma In_sort_desc (p : string * nat) (l : list (string * nat)) :
  In p (sort_desc l) <-> In p l.
Proof.
  split; intros H.
  - assert (F : Forall (fun q => In q l) (sort_desc l)).
    { apply Forall_sort_desc, Forall_forall. auto. }
    rewrite Forall_forall in F. now apply F.
  - assert (F : Forall (fun q => In q (sort_desc l)) l).
    { apply Forall_sort_desc, Forall_forall. auto. }
    rewrite Forall_forall in F. now apply F.
Qed.

Lemma lookup_In_keys_unique (c : list (string * nat)) (x : string) (n : nat) :
  NoDup (map fst c) -> In (x, n) c -> lookup x c = Some n.
Proof.
  induction c as [| [y m] c IH]; intros Hnd Hin; [destruct Hin|].
  cbn [map fst] in Hnd. inversion Hnd as [| ? ? Hy Hnd']; subst.
  cbn [lookup]. destruct Hin as [[= -> ->] | Hin].
  - now rewrite String.eqb_refl.
  - destruct (String.eqb x y) eqn:E; [|now apply IH].
    apply String.eqb_eq in E. subst y. elim Hy.
    change x with (fst (x, n)). now apply in_map.
Qed.

Lemma StronglySorted_lt_NoDup (f : string -> nat) (l : list string) :
  StronglySorted (fun a b => (f a < f b)%nat) l -> NoDup l.
Proof.
  induction 1 as [| x l Hs IH Hall]; constructor; [|exact IH].
  intros Hin. rewrite Forall_forall in Hall. specialize (Hall x Hin). lia.
Qed.

(** An entry of the tally pairs an item with its number of occurrences. *)
Lemma Counter_entry (items : list string) (x : string) (n : nat) :
  In (x, n) (Counter items) ->
  In x items /\ n = count_occ string_dec items x.
Proof.
  destruct (Counter_spec items) as (Hkeys & Hsorted & Hcount). intros Hin.
  assert (Hx : In x items).
  { apply Hkeys. change x with (fst (x, n)). now apply in_map. }
  split; [exact Hx|].
  apply lookup_In_keys_unique in Hin.
  - rewrite (Hcount _ Hx) in Hin. now injection Hin.
  - apply StronglySorted_lt_NoDup in Hsorted. exact Hsorted.
Qed.

(** ** The scan of [findall] along a text *)

Lemma last_char_nonempty (p q : option ascii) (w : list ascii) :
  w <> [] -> last_char p w = last_char q w.
Proof. destruct w as [| c w]; [tauto | reflexivity]. Qed.

Lemma last_char_snoc (p : option ascii) (w : list ascii) (c : ascii) :
  last_char p (w ++ [c]) = Some c.
Proof. now rewrite last_char_app. Qed.

(** Characters still to be passed after a match are passed unseen. *)
Lemma scan_skip (r : regex) (a s : list ascii) (prev : option ascii) :
  scan r (List.length a) prev (a ++ s) = scan r 0 (last_char prev a) s.
Proof.
  revert prev. induction a as [| c a IH]; intros prev; [reflexivity|].
  cbn [List.length app scan]. now rewrite IH.
Qed.

Lemma scan_match (r : regex) (prev : option ascii) (w s : list ascii) :
  w <> [] ->
  match_len r prev (w ++ s) = Some (List.length w) ->
  scan r 0 prev (w ++ s) = w :: scan r 0 (last_char prev w) s.
Proof.
  intros Hne H. destruct w as [| c w]; [tauto|].
  cbn [app scan]. cbn [app List.length] in H. rewrite H. f_equal.
  - cbn [firstn]. f_equal.
    rewrite firstn_app, firstn_all, Nat.sub_diag. cbn. apply app_nil_r.
  - now rewrite scan_skip.
Qed.

(** The pattern starts with an uppercase letter: no match elsewhere. *)
Lemma match_len_needs_upper (prev : option ascii) (c : ascii) (s : list ascii) :
  is_upper c = false -> match_len company_pattern prev (c :: s) = None.
Proof.
  intros H. unfold match_len, company_pattern. cbn [rmatch].
  rewrite H. now destruct (at_boundary prev (c :: s)).
Qed.

Lemma scan_no_upper (a s : list ascii) (prev : option ascii) :
  Forall (fun c => is_upper c = false) a ->
  scan company_pattern 0 prev (a ++ s) = scan company_pattern 0 (last_char prev a) s.
Proof.
  intros H. revert prev. induction H as [| c a Hc _ IH]; intros prev; [reflexivity|].
  cbn [app scan]. rewrite (match_len_needs_upper _ _ _ Hc). apply IH.
Qed.

(** The scan passes a stretch of text in which every match ends, and
    goes on behind it as from a fresh start. *)
Lemma scan_through (r : regex) (s : list ascii) :
  forall (pre : list ascii) (skip : nat) (prev : option ascii),
    (skip <= List.length pre)%nat ->
    (forall pre1 pre2 prev' n,
        pre = pre1 ++ pre2 -> pre2 <> [] ->
        match_len r prev' (pre2 ++ s) = Some n -> (n <= List.length pre2)%nat) ->
    exists found,
      scan r skip prev (pre ++ s) = found ++ scan r 0 (last_char prev pre) s.
Proof.
  induction pre as [| c pre IH]; intros skip prev Hskip Hends.
  - cbn [List.length] in Hskip. assert (skip = 0%nat) as -> by lia. now exists [].
  - assert (Hends' : forall pre1 pre2 prev' n,
               pre = pre1 ++ pre2 -> pre2 <> [] ->
               match_len r prev' (pre2 ++ s) = Some n -> (n <= List.length pre2)%nat).
    { intros pre1 pre2 prev' n -> Hne. apply (Hends (c :: pre1)); [reflexivity | exact Hne]. }
    cbn [app scan List.length] in *. destruct skip as [| k].
    + destruct (match_len r prev (c :: pre ++ s)) as [[| n] |] eqn:E.
      * apply (IH 0%nat); [lia | exact Hends'].
      * assert (Hn : (S n <= S (List.length pre))%nat).
        { apply (Hends [] (c :: pre) prev); [reflexivity | discriminate | exact E]. }
        destruct (IH n (Some c)) as [found Hfound]; [lia | exact Hends' |].
        exists (firstn (S n) (c :: pre ++ s) :: found). now rewrite Hfound.
      * apply (IH 0%nat); [lia | exact Hends'].
    + apply IH; [lia | exact Hends'].
Qed.

Lemma app_prefix_longer {A : Type} (a b w rest : list A) :
  a ++ b = w ++ rest -> (List.length a < List.length w)%nat ->
  exists b1, b1 <> [] /\ w = a ++ b1 /\ b = b1 ++ rest.
Proof.
  revert w. induction a as [| x a IH]; intros w H Hlen.
  - exists w. destruct w; [cbn in Hlen; lia|]. repeat split; [discriminate | exact H].
  - destruct w as [| y w]; [cbn in Hlen; lia|].
    cbn [app] in H. injection H as <- H. cbn [List.length] in Hlen.
    destruct (IH w H) as (b1 & Hne & -> & ->); [lia|]. now exists b1.
Qed.

Lemma split_at_odd_one {A : Type} (P : A -> Prop) (a b x y : list A) (c d : A) :
  Forall P x -> Forall P y -> ~ P c ->
  a ++ c :: b = x ++ d :: y -> b = y.
Proof.
  intros Hx Hy Hc. revert x Hx. induction a as [| a0 a IH]; intros x Hx H.
  - destruct x as [| x0 x]; cbn [app] in H.
    + now injection H.
    + injection H as -> _. inversion Hx. contradiction.
  - destruct x as [| x0 x]; cbn [app] in H.
    + injection H as _ H. elim Hc. rewrite Forall_forall in Hy. apply Hy.
      rewrite <- H. apply in_or_app. right. now left.
    + injection H as _ H. inversion Hx. now apply (IH x).
Qed.

Lemma is_upper_word (c : ascii) : is_upper c = true -> is_word c = true.
Proof. unfold is_word. now intros ->. Qed.

Lemma is_lower_word (c : ascii) : is_lower c = true -> is_word c = true.
Proof. unfold is_word. intros ->. now rewrite orb_true_r. Qed.

(** No suffix token starts with [e]. *)
Definition no_suffix_initial (e : ascii) : bool :=
  negb (existsb (fun suffix => startswith (String e "") suffix) SUFFIXES).

(** A match never runs from a non-word character into a following
    character that starts no suffix token: the only non-word character
    of a match is its space, with the suffix token behind it. *)
Lemma no_match_across (pre2 s : list ascii) (e : ascii) (prev : option ascii) (n : nat) :
  pre2 <> [] ->
  word_before (last_char None pre2) = false ->
  no_suffix_initial e = true ->
  match_len company_pattern prev (pre2 ++ e :: s) = Some n ->
  (n <= List.length pre2)%nat.
Proof.
  intros Hne Hlast He H.
  destruct (match_len_sound _ _ _ _ H) as (w & rest & Hsplit & M & -> & _).
  destruct (Nat.le_gt_cases (List.length w) (List.length pre2)) as [Hle | Hgt];
    [exact Hle | exfalso].
  destruct (app_prefix_longer _ _ _ _ Hsplit Hgt) as (b1 & Hb1 & -> & Hb).
  destruct b1 as [| e' b1]; [tauto|]. cbn [app] in Hb. injection Hb as <- _.
  destruct (exists_last Hne) as (pre2' & cl & ->).
  rewrite last_char_snoc in Hlast. cbn [word_before] in Hlast.
  apply matches_company_pattern in M as (u & ls & suffix & Hw & Hu & _ & Hall & Hin).
  rewrite <- app_assoc in Hw. cbn [app] in Hw.
  assert (Hsuffix : e :: b1 = list_ascii_of_string suffix).
  { apply (split_at_odd_one (fun c => is_word c = true) pre2' (e :: b1)
             (u :: ls) (list_ascii_of_string suffix) cl " "%char).
    - constructor; [now apply is_upper_word|].
      revert Hall. apply Forall_impl. exact is_lower_word.
    - destruct Hin as [<- | [<- | [<- | [<- | []]]]]; repeat constructor.
    - now rewrite Hlast.
    - exact Hw. }
  unfold no_suffix_initial in He. apply negb_true_iff in He.
  assert (Hex : existsb (fun suffix => startswith (String e "") suffix) SUFFIXES = true).
  { apply existsb_exists. exists suffix. split; [exact Hin|].
    destruct suffix as [| c suffix]; [discriminate|].
    cbn [list_ascii_of_string] in Hsuffix. injection Hsuffix as <- _.
    cbn [startswith]. now rewrite Ascii.eqb_refl. }
  congruence.
Qed.

Definition stops (p : ascii -> bool) (s : list ascii) : Prop :=
  match s with
  | [] => True
  | c :: _ => p c = false
  end.

Lemma rep1_stops {A : Type} (p : ascii -> bool) (i : nat) (s : list ascii)
    (k : nat -> option ascii -> list ascii -> option A) :
  stops p s -> rep1 p i s k = None.
Proof. destruct s as [| c s]; [reflexivity|]. cbn. now intros ->. Qed.

(** The greedy loop takes the whole run when the rest of the pattern
    matches behind it. *)
Lemma rep1_greedy {A : Type} (p : ascii -> bool)
    (k : nat -> option ascii -> list ascii -> option A) (out : A) (s : list ascii) :
  forall (ls : list ascii) (i : nat) (prev : option ascii),
    ls <> [] -> Forall (fun c => p c = true) ls -> stops p s ->
    k (i + List.length ls)%nat (last_char prev ls) s = Some out ->
    rep1 p i (ls ++ s) k = Some out.
Proof.
  induction ls as [| c ls IH]; intros i prev Hne Hall Hstop Hk; [tauto|].
  inversion Hall as [| ? ? Hc Hall']; subst.
  cbn [app rep1]. rewrite Hc.
  destruct ls as [| c2 ls].
  - cbn [app]. rewrite (rep1_stops _ _ _ _ Hstop).
    cbn in Hk. now rewrite Nat.add_1_r in Hk.
  - rewrite (IH (S i) (Some c)); [reflexivity | discriminate | exact Hall' | exact Hstop |].
    cbn [List.length] in *. rewrite Nat.add_succ_r in Hk. exact Hk.
Qed.

Lemma nonword_neq (c d : ascii) :
  is_word c = false -> is_word d = true -> Ascii.eqb c d = false.
Proof.
  intros Hc Hd. destruct (Ascii.eqb c d) eqn:E; [|reflexivity].
  apply Ascii.eqb_eq in E. congruence.
Qed.

(** A capitalized word, a space and a suffix token that stand between
    two non-word positions are matched, all of them. *)
Lemma match_len_complete (prev : option ascii) (u : ascii) (ls : list ascii)
    (suffix : string) (rest : list ascii) :
  word_before prev = false ->
  is_upper u = true ->
  ls <> [] -> Forall (fun c => is_lower c = true) ls ->
  In suffix SUFFIXES ->
  word_after rest = false ->
  match_len company_pattern prev
    ((u :: ls ++ " "%char :: list_ascii_of_string suffix) ++ rest)
  = Some (List.length (u :: ls ++ " "%char :: list_ascii_of_string suffix)).
Proof.
  intros Hprev Hu Hne Hall Hin Hrest.
  unfold match_len, company_pattern. cbn [rmatch app].
  unfold at_boundary at 1. rewrite Hprev. cbn [word_after].
  rewrite (is_upper_word _ Hu), Hu. cbn [xorb].
  rewrite <- app_assoc. cbn [app].
  apply (rep1_greedy _ _ _ _ ls 1%nat (Some u) Hne Hall); [reflexivity|].
  cbn [List.length]. rewrite length_app. cbn [List.length].
  assert (Hend : forall c, is_word c = true -> at_boundary (Some c) rest = true).
  { intros c Hc. unfold at_boundary. cbn [word_before]. now rewrite Hc, Hrest. }
  destruct Hin as [<- | [<- | [<- | [<- | []]]]]; cbn [list_ascii_of_string app];
    unfold word; cbn [list_ascii_of_string Lit rmatch];
    repeat (rewrite ?Ascii.eqb_refl; cbn [Ascii.eqb Bool.eqb andb]);
    rewrite ?Hend by reflexivity; cbn [List.length]; try (f_equal; lia).
  destruct rest as [| a rest']; [f_equal; lia|].
  cbn [word_after] in Hrest.
  rewrite (nonword_neq a "r" Hrest eq_refl). f_equal. lia.
Qed.

(** A name of the pattern's shape that stands between two non-word
    positions, and whose capital starts no suffix token, is found
    behind any text. *)
Lemma scan_finds (prev : option ascii) (pre : list ascii) (u : ascii) (ls : list ascii)
    (suffix : string) (post : list ascii) :
  let name := u :: ls ++ " "%char :: list_ascii_of_string suffix in
  word_before (last_char prev pre) = false ->
  is_upper u = true ->
  ls <> [] -> Forall (fun c => is_lower c = true) ls ->
  In suffix SUFFIXES ->
  no_suffix_initial u = true ->
  word_after post = false ->
  exists before,
    scan company_pattern 0 prev (pre ++ name ++ post)
    = before ++ name :: scan company_pattern 0 (last_char None name) post.
Proof.
  intros name Hpre Hu Hne Hall Hin Hinit Hpost.
  destruct (scan_through company_pattern (name ++ post) pre 0 prev) as [before Hscan].
  - lia.
  - intros pre1 pre2 prev' n -> Hne2. unfold name. cbn [app].
    apply no_match_across; [exact Hne2 | | exact Hinit].
    rewrite last_char_app in Hpre.
    now rewrite (last_char_nonempty None (last_char prev pre1) pre2 Hne2).
  - exists before. rewrite Hscan. f_equal.
    rewrite scan_match.
    + reflexivity.
    + discriminate.
    + now apply match_len_complete.
Qed.

Definition ends_with_word (s : string) : bool :=
  word_before (last_char None (list_ascii_of_string s)).

Definition starts_with_word (s : string) : bool :=
  word_after (list_ascii_of_string s).

Definition phrase : string := "Example Corp was acquired by Sample Inc".

Lemma extract_companies_phrase (pre post : string) :
  ends_with_word pre = false ->
  starts_with_word post = false ->
  exists before between after,
    extract_companies (pre +++ phrase +++ post)
    = before ++ "Example Corp" :: between ++ "Sample Inc" :: after.
Proof.
  unfold ends_with_word, starts_with_word, extract_companies, findall.
  intros Hpre Hpost. rewrite !list_ascii_of_string_app.
  set (lpre := list_ascii_of_string pre) in *.
  set (lpost := list_ascii_of_string post) in *.
  change (list_ascii_of_string phrase)
    with (("E"%char :: list_ascii_of_string "xample" ++ " "%char
                    :: list_ascii_of_string "Corp")
          ++ list_ascii_of_string " was acquired by "
          ++ ("S"%char :: list_ascii_of_string "ample" ++ " "%char
                       :: list_ascii_of_string "Inc")).
  rewrite <- !app_assoc.
  destruct (scan_finds None lpre "E" (list_ascii_of_string "xample") "Corp"
              (list_ascii_of_string " was acquired by "
               ++ ("S"%char :: list_ascii_of_string "ample" ++ " "%char
                            :: list_ascii_of_string "Inc") ++ lpost))
    as [before H1]; try reflexivity; try exact Hpre;
    [discriminate | repeat constructor | cbn; tauto |].
  destruct (scan_finds (Some "p"%char) (list_ascii_of_string " was acquired by ")
              "S" (list_ascii_of_string "ample") "Inc" lpost)
    as [between H2]; try reflexivity; try exact Hpost;
    [discriminate | repeat constructor | cbn; tauto |].
  cbv zeta in H1, H2.
  exists (map string_of_list_ascii before), (map string_of_list_ascii between),
         (map string_of_list_ascii
            (scan company_pattern 0
               (last_char None ("S"%char :: list_ascii_of_string "ample" ++ " "%char
                                         :: list_ascii_of_string "Inc")) lpost)).
  rewrite H1.
  change (last_char None ("E"%char :: list_ascii_of_string "xample" ++ " "%char
                                   :: list_ascii_of_string "Corp"))
    with (Some "p"%char).
  rewrite H2. rewrite map_app. cbn [map]. rewrite map_app. cbn [map]. reflexivity.
Qed.

(** * The claims *)

Lemma Ztotal_indicator {A : Type} (f : A -> bool) (l : list A) :
  Ztotal (map (fun x => Z.of_nat (if f x then 1 else 0)) l)
  = Z.of_nat (List.length (filter f l)).
Proof.
  induction l as [| x l IH]; [reflexivity|].
  cbn [map Ztotal fold_right filter].
  fold (Ztotal (map (fun x => Z.of_nat (if f x then 1 else 0)) l)).
  rewrite IH. destruct (f x); cbn [List.length]; lia.
Qed.

Lemma filter_none {A : Type} (f : A -> bool) (l : list A) :
  (forall x, In x l -> f x = false) -> filter f l = [].
Proof.
  induction l as [| x l IH]; intros H; [reflexivity|].
  cbn [filter]. rewrite (H x) by now left. apply IH. intros y Hy. apply H. now right.
Qed.

(** The total of scores between 0 and [K], as the scores for [K]
    keywords are, is at most [K] times their number. *)
Lemma Ztotal_bounded (K : Z) (scores : list Z) :
  Forall (fun z => (0 <= z <= K)%Z) scores ->
  (0 <= Ztotal scores <= Z.of_nat (List.length scores) * K)%Z.
Proof.
  induction 1 as [| z l Hz Hl IH]; [cbn; lia|].
  cbn [Ztotal fold_right List.length]. fold (Ztotal l). nia.
Qed.

Example two_keyword_post : DataFrame :=
  pd_DataFrame [ [("full_text", VStr "Merger after the acquisition")] ].

(** C1. On a record set with at least one record and an integer score
    column, [calculate_signal_strength] is the sum of the scores divided
    by the record count, times 100, in binary64.  The sum is the one of
    the [int64] column: it is the exact total whenever that lies in the
    64-bit range, as it does for scores between 0 and a number [K] of
    keywords on fewer than [2^63 / K] records.  For three posts of
    which exactly one contains [merger] and none contains another merger
    keyword, the merger signal after [keyword_analysis] is
    [(1/3)*100].  Some record set has a signal above 100. *)
Theorem signal_strength_is_scaled_average :
  (forall (df : DataFrame) (column_prefix : string) (scores : list Z),
      getitem df (score_column column_prefix) = Ok (map VInt scores) ->
      (0 < len df)%nat ->
      calculate_signal_strength df column_prefix
      = Ok (VFloat (float_of_Z (Zsum scores) / float_of_Z (Z.of_nat (len df))
                    * float_of_Z 100))
      /\ ((- 2 ^ 63 <= Ztotal scores < 2 ^ 63)%Z -> Zsum scores = Ztotal scores)
      /\ (forall K : Z,
             Forall (fun z => (0 <= z <= K)%Z) scores ->
             (Z.of_nat (List.length scores) * K < 2 ^ 63)%Z ->
             Zsum scores = Ztotal scores))
  /\ (forall (df : DataFrame) (texts : list string),
         wf df ->
         getitem df "full_text" = Ok (map VStr texts) ->
         List.length texts = 3%nat ->
         List.length (filter (fun x => Z.eqb (keyword_flag "merger" x) 1) texts) = 1%nat ->
         (forall k x, In k MERGER_KEYWORDS -> k <> "merger" -> In x texts ->
                      keyword_flag k x = 0%Z) ->
         exists df',
           keyword_analysis df "full_text" MERGER_KEYWORDS "merger" = Ok df'
           /\ calculate_signal_strength df' "merger" = Ok (VFloat (1 / 3 * 100)))
  /\ (exists (df : DataFrame) (f : float),
         calculate_signal_strength df "merger" = Ok (VFloat f)
         /\ PrimFloat.ltb 100 f = true).
Proof.
  split; [|split].
  - intros df column_prefix scores Hcol Hlen.
    split; [now apply calculate_signal_strength_value|]. split.
    + intros H. now apply wrap64_small.
    + intros K HK Hfit. apply wrap64_small.
      pose proof (Ztotal_bounded K scores HK). lia.
  - intros df texts Hwf Htext Hlen Hone Hothers.
    destruct (keyword_analysis_runs df "full_text" "merger" MERGER_KEYWORDS texts Hwf Htext)
      as [df' Hrun].
    { cbn. intuition discriminate. }
    exists df'. split; [exact Hrun|].
    destruct (keyword_analysis_inv _ _ _ _ _ _ Hwf Htext Hrun) as (Hidx & Hscore & _).
    assert (Hrows : len df' = List.length texts).
    { unfold len. rewrite Hidx, <- (wf_getitem _ _ _ Hwf Htext). apply length_map. }
    rewrite (calculate_signal_strength_scores _ _ _ _ Hscore Hrows)
      by (intros ->; discriminate).
    unfold strength. rewrite Hlen.
    assert (Hsum : Ztotal (map (fun x => Z.of_nat (matching_keywords MERGER_KEYWORDS x)) texts)
                   = 1%Z).
    { rewrite (map_ext_in _ (fun x => Z.of_nat
                 (if Z.eqb (keyword_flag "merger" x) 1 then 1 else 0))).
      - rewrite Ztotal_indicator, Hone. reflexivity.
      - intros x Hx. f_equal. unfold matching_keywords.
        change MERGER_KEYWORDS with ("merger" :: tl MERGER_KEYWORDS).
        cbn [filter].
        rewrite (filter_none _ (tl MERGER_KEYWORDS)).
        + now destruct (Z.eqb (keyword_flag "merger" x) 1).
        + intros k Hk. rewrite (Hothers k x); [reflexivity | now right | | exact Hx].
          intros ->. cbn in Hk. intuition discriminate. }
    unfold Zsum. rewrite Hsum. vm_compute. reflexivity.
  - exists (setitem two_keyword_post "merger_score" [VInt 2]), 200%float.
    split; vm_compute; reflexivity.
Qed.

Lemma signal_strength_is_scaled_average_witness :
  exists df',
    keyword_analysis three_posts "full_text" MERGER_KEYWORDS "merger" = Ok df'
    /\ calculate_signal_strength df' "merger" = Ok (VFloat (1 / 3 * 100)).
Proof.
  apply (proj1 (proj2 signal_strength_is_scaled_average) three_posts
           ["Big Merger announced today"; "nothing to see"; "lunch was fine"]).
  - apply wf_pd_DataFrame.
  - reflexivity.
  - reflexivity.
  - reflexivity.
  - intros k x Hk Hne Hx.
    destruct Hx as [<- | [<- | [<- | []]]];
      repeat (destruct Hk as [<- | Hk]; [first [reflexivity | now elim Hne]|]);
      destruct Hk.
Defined.

(** C2, as stated, at the frame of no record at all: without the score
    column [calculate_signal_strength] raises [KeyError]. *)
Lemma signal_strength_of_columnless_frame :
  len (pd_DataFrame []) = 0%nat
  /\ calculate_signal_strength (pd_DataFrame []) "merger"
     = Raise (KeyError "merger_score").
Proof. split; reflexivity. Qed.

(** C2, amended. On a frame of no record that has the score column of
    the category, [calculate_signal_strength] returns the integer 0; on
    no frame at all does it raise a division error. *)
Theorem signal_strength_of_empty_frame (df : DataFrame) (column_prefix : string)
    (col : Series) :
  wf df -> len df = 0%nat ->
  getitem df (score_column column_prefix) = Ok col ->
  calculate_signal_strength df column_prefix = Ok (VInt 0)
  /\ (forall df' column_prefix',
         calculate_signal_strength df' column_prefix' <> Raise ZeroDivisionError).
Proof.
  intros Hwf Hlen Hcol. split.
  - exact (calculate_signal_strength_empty _ _ _ Hwf Hlen Hcol).
  - exact calculate_signal_strength_no_division_error.
Qed.

Example no_records_with_scores : DataFrame :=
  mkDataFrame 0 [("comment_body", []); ("merger_score", [])].

Lemma signal_strength_of_empty_frame_witness :
  calculate_signal_strength no_records_with_scores "merger" = Ok (VInt 0)
  /\ (forall df' column_prefix',
         calculate_signal_strength df' column_prefix' <> Raise ZeroDivisionError).
Proof.
  apply (signal_strength_of_empty_frame no_records_with_scores "merger" []).
  - repeat constructor.
  - reflexivity.
  - reflexivity.
Defined.

Example score_keyword_post : DataFrame :=
  pd_DataFrame [ [("text", VStr "the score of a game")] ].

(** C3, as stated, at the keyword list [["score"; "a"]]: the column of
    the keyword [score] is the score column, and holds 2. *)
Lemma flag_column_of_keyword_score :
  exists df',
    keyword_analysis score_keyword_post "text" ["score"; "a"] "p" = Ok df'
    /\ getitem df' (flag_column "p" "score") = Ok [VInt 2]
    /\ getitem df' (flag_column "p" "a") = Ok [VInt 1].
Proof. eexists. split; [vm_compute; reflexivity|]. split; reflexivity. Qed.

(** C3, amended. Whenever [keyword_analysis] returns on a frame whose
    text column holds ASCII strings, for ASCII keywords: the flag of a
    keyword on a text is 0 or 1, and is 1 exactly when the lowercased
    keyword is a substring of the lowercased text; the score of a record
    is the number of keywords of the list whose flag on its text is 1
    (the float [0.0] when the list is empty); and the column of every
    keyword other than [score] holds the flags of that keyword.  The
    list has fewer than [2^63] keywords, as every Python list has. *)
Theorem keyword_analysis_flags_and_score (df df' : DataFrame)
    (text_column column_prefix : string) (keywords : list string) (texts : list string) :
  wf df ->
  getitem df text_column = Ok (map VStr texts) ->
  forallb isascii texts = true ->
  forallb isascii keywords = true ->
  (Z.of_nat (List.length keywords) < 2 ^ 63)%Z ->
  keyword_analysis df text_column keywords column_prefix = Ok df' ->
  (forall keyword x, In keyword keywords -> In x texts ->
      (keyword_flag keyword x = 0%Z \/ keyword_flag keyword x = 1%Z)
      /\ (keyword_flag keyword x = 1%Z <-> substring_of (lower keyword) (lower x)))
  /\ getitem df' (score_column column_prefix)
     = Ok (map (fun x =>
                  match keywords with
                  | [] => VFloat 0
                  | _ :: _ =>
                      VInt (Z.of_nat (List.length
                              (filter (fun k => Z.eqb (keyword_flag k x) 1) keywords)))
                  end) texts)
  /\ (forall keyword, In keyword keywords -> keyword <> "score" ->
        getitem df' (flag_column column_prefix keyword)
        = Ok (map (fun x => VInt (keyword_flag keyword x)) texts)).
Proof.
  intros Hwf Htext _ _ Hfew Hrun.
  destruct (keyword_analysis_inv _ _ _ _ _ _ Hwf Htext Hrun) as (_ & Hscore & Hflags & _).
  split; [|split].
  - intros keyword x _ _. split; [apply keyword_flag_binary | apply keyword_flag_spec].
  - rewrite Hscore. f_equal. destruct keywords as [| k rest]; [reflexivity|].
    apply score_series_counts; [discriminate | exact Hfew].
  - exact Hflags.
Qed.

Lemma keyword_analysis_flags_and_score_witness :
  exists df',
    keyword_analysis three_posts "full_text" MERGER_KEYWORDS "merger" = Ok df'
    /\ getitem df' (score_column "merger") = Ok [VInt 1; VInt 0; VInt 0]
    /\ getitem df' (flag_column "merger" "merger") = Ok [VInt 1; VInt 0; VInt 0].
Proof.
  destruct (keyword_analysis three_posts "full_text" MERGER_KEYWORDS "merger")
    as [df' | e] eqn:Hrun; [|vm_compute in Hrun; discriminate].
  exists df'. split; [reflexivity|].
  destruct (keyword_analysis_flags_and_score three_posts df' "full_text" "merger"
              MERGER_KEYWORDS
              ["Big Merger announced today"; "nothing to see"; "lunch was fine"]
              (wf_pd_DataFrame _) eq_refl eq_refl eq_refl eq_refl Hrun)
    as (_ & Hscore & Hflags).
  split.
  - rewrite Hscore. vm_compute. reflexivity.
  - rewrite (Hflags "merger"); [vm_compute; reflexivity | now left | discriminate].
Defined.

(** C4. A forum that yields no post: the pipeline makes the output
    directory, logs its first line and raises [KeyError('title')] at
    line 145, since the frame built from no record has no column.  No
    report is written. *)
Theorem analyze_company_empty_forum (polarity : string -> float)
    (mean : list float -> float) (subreddit_name : string) (w : World) :
  hot w subreddit_name = [] ->
  analyze_company polarity mean subreddit_name w
  = (Raise (KeyError "title"),
     mkWorld (hot w) (now w)
       (dirs w ++ ["output/" +++ subreddit_name +++ "_" +++ now w])
       (log w ++ ["Starting analysis for r/" +++ subreddit_name])
       (files w)).
Proof.
  intros Hempty. unfold analyze_company, io_bind, datetime_now, os_makedirs,
    logging_info, analyze_subreddit. cbn [hot now dirs log files].
  rewrite Hempty. reflexivity.
Qed.

Example silent_forum : World :=
  mkWorld (fun _ => []) "20240101_000000" [] [] [].

Lemma analyze_company_empty_forum_witness :
  analyze_company (fun _ => 0%float) (fun _ => 0%float) "jobs" silent_forum
  = (Raise (KeyError "title"),
     mkWorld (fun _ => []) "20240101_000000"
       ["output/jobs_20240101_000000"] ["Starting analysis for r/jobs"] []).
Proof.
  exact (analyze_company_empty_forum (fun _ => 0%float) (fun _ => 0%float)
           "jobs" silent_forum eq_refl).
Defined.

(** C5, as stated, at a text that contains the sentence inside longer
    words: [Sample Incorporated] is no match, for want of a word
    boundary behind [Inc]. *)
Lemma extract_inside_longer_words :
  substring_of phrase "Example Corp was acquired by Sample Incorporated"
  /\ extract_companies "Example Corp was acquired by Sample Incorporated"
     = ["Example Corp"].
Proof.
  split; [|vm_compute; reflexivity].
  exists "", "orporated". reflexivity.
Qed.

(** C5, amended. In any ASCII text that contains the sentence with no
    word character directly before or behind it, [extract_companies]
    finds [Example Corp] and, later, [Sample Inc]; the tally gives an
    entity that was found once the frequency 1, and for the sentence
    alone the ten most common are these two with frequency 1 each.
    Every string found is a capitalized word, a space and one of [Inc],
    [Corp], [Co], [Ltd]. *)
Theorem extract_phrase_between_boundaries (pre post : string) :
  isascii pre = true ->
  isascii post = true ->
  ends_with_word pre = false ->
  starts_with_word post = false ->
  (exists before between after,
      extract_companies (pre +++ phrase +++ post)
      = before ++ "Example Corp" :: between ++ "Sample Inc" :: after)
  /\ (forall found x, In x found -> count_occ string_dec found x = 1%nat ->
        lookup x (Counter found) = Some 1%nat)
  /\ most_common 10 (Counter (extract_companies phrase))
     = [("Example Corp", 1%nat); ("Sample Inc", 1%nat)]
  /\ (forall text x, In x (extract_companies text) -> company_shape x).
Proof.
  intros _ _ Hpre Hpost. split; [now apply extract_companies_phrase|]. split; [|split].
  - intros found x Hin Hone. rewrite <- Hone. now apply Counter_spec.
  - vm_compute. reflexivity.
  - exact extract_companies_shape.
Qed.

Lemma extract_phrase_between_boundaries_witness :
  exists before between after,
    extract_companies ("Rumour: " +++ phrase +++ ", they say.")
    = before ++ "Example Corp" :: between ++ "Sample Inc" :: after.
Proof.
  exact (proj1 (extract_phrase_between_boundaries "Rumour: " ", they say."
                  eq_refl eq_refl eq_refl eq_refl)).
Defined.

(** C6. The list [Counter(items).most_common(10)] has at most ten
    entries; of two of its entries the earlier one is at least as
    frequent, and when they are equally frequent its entity was first
    encountered earlier in [items]; every entry pairs an entity of
    [items] with its number of occurrences. *)
Theorem most_common_ten_descending_first_seen (items : list string) :
  let tally := most_common 10 (Counter items) in
  (List.length tally <= 10)%nat
  /\ (forall i j p q,
         (i < j)%nat -> nth_error tally i = Some p -> nth_error tally j = Some q ->
         (snd q <= snd p)%nat
         /\ (snd p = snd q ->
             (index_of (fst p) items < index_of (fst q) items)%nat))
  /\ (forall x n, In (x, n) tally ->
         In x items /\ n = count_occ string_dec items x).
Proof.
  cbv zeta. split; [|split].
  - unfold most_common. apply firstn_le_length.
  - intros i j p q Hij Hp Hq.
    pose proof (StronglySorted_nth_error _ _ (most_common_sorted 10 items)
                  i j p q Hij Hp Hq) as H.
    unfold listed_before in H. split; [lia|]. intros Heq. lia.
  - intros x n Hin. apply Counter_entry.
    unfold most_common in Hin. apply In_sort_desc.
    rewrite <- (firstn_skipn 10 (sort_desc (Counter items))).
    apply in_or_app. now left.
Qed.

(** The closed interval from -1 to 1. *)
Definition in_unit_interval (f : float) : bool :=
  PrimFloat.leb (-1) f && PrimFloat.leb f 1.

Lemma keyword_flag_empty_text (keyword : string) :
  keyword <> "" -> keyword_flag keyword "" = 0%Z.
Proof. destruct keyword; [tauto | reflexivity]. Qed.

Example empty_text_record : DataFrame :=
  pd_DataFrame [ [("text", VStr "")] ].

(** C7, as stated, at the keyword [""]: the empty string occurs in the
    empty text, and the flag is 1. *)
Lemma empty_keyword_flags_empty_text :
  exists df',
    keyword_analysis empty_text_record "text" [""] "p" = Ok df'
    /\ getitem df' (flag_column "p" "") = Ok [VInt 1].
Proof. eexists. split; [vm_compute; reflexivity | reflexivity]. Qed.

Lemma Ztotal_zeros {A : Type} (l : list A) : Ztotal (map (fun _ => 0%Z) l) = 0%Z.
Proof. induction l as [| x l IH]; [reflexivity|]. cbn. exact IH. Qed.

(** On the empty text a list of non-empty keywords scores 0. *)
Lemma row_score_empty_text (keywords : list string) :
  keywords <> [] ->
  Forall (fun keyword => keyword <> "") keywords ->
  row_score keywords "" = VInt 0.
Proof.
  intros Hne Hall. destruct keywords as [| k rest]; [now elim Hne|].
  unfold row_score, Zsum.
  rewrite (map_ext_in _ (fun _ => 0%Z)).
  - now rewrite Ztotal_zeros.
  - intros k' Hk'. rewrite Forall_forall in Hall. now apply keyword_flag_empty_text, Hall.
Qed.

(** [keyword_analysis] does not return when the text column holds
    floats and there is a record and a keyword. *)
Lemma keyword_analysis_on_floats (df df' : DataFrame) (text_column column_prefix : string)
    (keywords : list string) (f : float) (col : Series) :
  getitem df text_column = Ok (VFloat f :: col) ->
  keyword_analysis df text_column keywords column_prefix = Ok df' ->
  keywords = [].
Proof.
  intros Htext Hrun. destruct keywords as [| k rest]; [reflexivity|].
  unfold keyword_analysis in Hrun. apply bind_Ok in Hrun as (df1 & Hloop & _).
  cbn [keyword_loop] in Hloop. rewrite Htext in Hloop. discriminate.
Qed.

(** C7, amended. Let the polarity of the sentiment collaborator lie in
    [-1, 1] and be 0 on the empty string.  Then [sentiment_analysis]
    returns, and the sentiment column it stores holds, record by
    record, the polarity of the record's text: a value in [-1, 1], and
    0.0 for a record whose text is the empty string.  Whenever
    [keyword_analysis] then returns for a list of keywords none of which
    is the empty string, such a record has the flag 0 in the column of
    every keyword of the list, and the score 0.  No keyword of the four
    category lists is the empty string. *)
Theorem empty_text_is_neutral (polarity : string -> float) (df : DataFrame)
    (text_column : string) (texts : list string) :
  (forall s, in_unit_interval (polarity s) = true) ->
  polarity "" = 0%float ->
  wf df ->
  getitem df text_column = Ok (map VStr texts) ->
  exists df',
    sentiment_analysis polarity df text_column = Ok df'
    /\ getitem df' "sentiment" = Ok (map (fun x => VFloat (polarity x)) texts)
    /\ Forall (fun x => in_unit_interval (polarity x) = true) texts
    /\ (forall i, nth_error texts i = Some "" ->
          nth_error (map (fun x => VFloat (polarity x)) texts) i = Some (VFloat 0))
    /\ (forall keywords column_prefix df'',
          keyword_analysis df' text_column keywords column_prefix = Ok df'' ->
          Forall (fun keyword => keyword <> "") keywords ->
          forall i, nth_error texts i = Some "" ->
            (forall keyword, In keyword keywords ->
               exists flags,
                 getitem df'' (flag_column column_prefix keyword) = Ok flags
                 /\ nth_error flags i = Some (VInt 0))
            /\ (keywords <> [] ->
                exists scores,
                  getitem df'' (score_column column_prefix) = Ok scores
                  /\ nth_error scores i = Some (VInt 0)))
    /\ Forall (fun keyword => keyword <> "")
         (MERGER_KEYWORDS ++ LAYOFF_KEYWORDS ++ REASSIGNMENT_KEYWORDS
          ++ REDUCED_WORKLOAD_KEYWORDS).
Proof.
  intros Hrange Hempty Hwf Htext.
  set (df' := setitem df "sentiment" (map (fun x => VFloat (polarity x)) texts)).
  exists df'.
  split; [now apply sentiment_analysis_runs|].
  split; [apply getitem_setitem_same|].
  split; [apply Forall_forall; intros x _; apply Hrange|].
  split; [intros i Hi; rewrite nth_error_map, Hi; cbn; now rewrite Hempty|].
  split; [|repeat constructor; discriminate].
  intros keywords column_prefix df'' Hrun Hall i Hi.
  assert (Hscore_row : keywords <> [] ->
            nth_error (score_series keywords texts) i = Some (VInt 0)).
  { intros Hne. unfold score_series. rewrite nth_error_map, Hi. cbn [option_map].
    now rewrite row_score_empty_text. }
  destruct (string_dec text_column "sentiment") as [-> | Hne].
  - (* the text column is the sentiment column, now a column of floats *)
    assert (Hk : keywords = []).
    { destruct texts as [| t texts]; [destruct i; discriminate|].
      apply (keyword_analysis_on_floats df' df'' "sentiment" column_prefix keywords
               (polarity t) (map (fun x => VFloat (polarity x)) texts));
        [apply getitem_setitem_same | exact Hrun]. }
    subst keywords. split; [intros keyword [] | intros H; now elim H].
  - assert (Htext' : getitem df' text_column = Ok (map VStr texts)).
    { unfold df'. now rewrite getitem_setitem_other. }
    assert (Hwf' : wf df').
    { apply wf_setitem; [exact Hwf|].
      rewrite length_map, <- (wf_getitem _ _ _ Hwf Htext). now rewrite length_map. }
    destruct (keyword_analysis_inv _ _ _ _ _ _ Hwf' Htext' Hrun)
      as (_ & Hscore & Hflags & _).
    split.
    + intros keyword Hin.
      destruct (string_dec keyword "score") as [-> | Hk].
      * exists (score_series keywords texts). split; [exact Hscore|].
        apply Hscore_row. intros ->. destruct Hin.
      * exists (flag_series keyword texts). split; [now apply Hflags|].
        unfold flag_series. rewrite nth_error_map, Hi. cbn [option_map].
        rewrite keyword_flag_empty_text; [reflexivity|].
        rewrite Forall_forall in Hall. now apply Hall.
    + intros Hne'. exists (score_series keywords texts). split; [exact Hscore|].
      now apply Hscore_row.
Qed.

Lemma empty_text_is_neutral_witness :
  exists df' df'',
    sentiment_analysis (fun s => if String.eqb s "" then 0%float else 0.5%float)
      (pd_DataFrame [ [("text", VStr "")]; [("text", VStr "fine")] ]) "text" = Ok df'
    /\ getitem df' "sentiment" = Ok [VFloat 0; VFloat 0.5]
    /\ keyword_analysis df' "text" LAYOFF_KEYWORDS "layoff" = Ok df''
    /\ (exists flags,
          getitem df'' (flag_column "layoff" "fired") = Ok flags
          /\ nth_error flags 0 = Some (VInt 0)).
Proof.
  destruct (empty_text_is_neutral
              (fun s => if String.eqb s "" then 0%float else 0.5%float)
              (pd_DataFrame [ [("text", VStr "")]; [("text", VStr "fine")] ])
              "text" [""; "fine"])
    as (df' & Hrun & Hs & _ & _ & Hflags & _).
  - intros s. destruct (String.eqb s ""); reflexivity.
  - reflexivity.
  - apply wf_pd_DataFrame.
  - reflexivity.
  - destruct (keyword_analysis df' "text" LAYOFF_KEYWORDS "layoff") as [df'' | e] eqn:Hk.
    + exists df', df''. split; [exact Hrun|]. split; [exact Hs|]. split; [exact Hk|].
      apply (proj1 (Hflags LAYOFF_KEYWORDS "layoff" df'' Hk
                      ltac:(repeat constructor; discriminate) 0%nat eq_refl)).
      cbn. tauto.
    + injection Hrun as <-. vm_compute in Hk. discriminate.
Defined.

Example scored_post : DataFrame :=
  pd_DataFrame [ [ ("text", VStr "a merger"); ("sentiment", VStr "positive");
                   ("p_merger", VStr "yes"); ("p_score", VInt 7) ] ].

(** C9, as stated, at a record that already has a [sentiment] field and
    fields [p_merger] and [p_score]: the annotators overwrite them. *)
Lemma annotators_overwrite_fields :
  getitem scored_post "sentiment" = Ok [VStr "positive"]
  /\ getitem scored_post "p_merger" = Ok [VStr "yes"]
  /\ getitem scored_post "p_score" = Ok [VInt 7]
  /\ (forall polarity : string -> float,
        exists df',
          sentiment_analysis polarity scored_post "text" = Ok df'
          /\ getitem df' "sentiment" = Ok [VFloat (polarity "a merger")])
  /\ (exists df',
        keyword_analysis scored_post "text" ["merger"] "p" = Ok df'
        /\ getitem df' "p_merger" = Ok [VInt 1]
        /\ getitem df' "p_score" = Ok [VInt 1]).
Proof.
  split; [reflexivity|]. split; [reflexivity|]. split; [reflexivity|]. split.
  - intros polarity. eexists. split; reflexivity.
  - eexists. split; [vm_compute; reflexivity|]. split; reflexivity.
Qed.

(** C9, amended. Whenever [sentiment_analysis] or [keyword_analysis]
    returns, the frame has as many records as before, every column
    other than the ones the function writes ([sentiment]; the flag
    columns of the keywords and the score column) reads as before,
    record by record in the same order, the columns of the input keep
    their places, and the world in which the function runs is left as
    it is. *)
Theorem annotators_keep_records (polarity : string -> float) (df : DataFrame)
    (text_column column_prefix : string) (keywords : list string) :
  (forall df',
      sentiment_analysis polarity df text_column = Ok df' ->
      len df' = len df
      /\ (forall c, c <> "sentiment" -> getitem df' c = getitem df c)
      /\ (exists extra, map fst (columns df') = map fst (columns df) ++ extra)
      /\ (forall w : World, lift (sentiment_analysis polarity df text_column) w = (Ok df', w)))
  /\ (forall df',
         keyword_analysis df text_column keywords column_prefix = Ok df' ->
         len df' = len df
         /\ (forall c, ~ In c (map (flag_column column_prefix) keywords) ->
               c <> score_column column_prefix -> getitem df' c = getitem df c)
         /\ (exists extra, map fst (columns df') = map fst (columns df) ++ extra)
         /\ (forall w : World,
               lift (keyword_analysis df text_column keywords column_prefix) w = (Ok df', w))).
Proof.
  split; intros df' Hrun.
  - destruct (sentiment_analysis_frame _ _ _ _ Hrun) as (H1 & H2 & H3).
    repeat split; auto. intros w. unfold lift. now rewrite Hrun.
  - destruct (keyword_analysis_frame _ _ _ _ _ Hrun) as (H1 & H2 & H3).
    repeat split; auto. intros w. unfold lift. now rewrite Hrun.
Qed.

Example one_post : DataFrame :=
  pd_DataFrame [ [("title", VStr "Quiet week"); ("full_text", VStr "Quiet week, no layoff")] ].

Lemma annotators_keep_records_witness :
  exists df1 df2,
    sentiment_analysis (fun _ => 0%float) one_post "full_text" = Ok df1
    /\ keyword_analysis df1 "full_text" LAYOFF_KEYWORDS "layoff" = Ok df2
    /\ len df2 = 1%nat
    /\ getitem df2 "title" = Ok [VStr "Quiet week"]
    /\ getitem df2 "sentiment" = Ok [VFloat 0].
Proof.
  destruct (sentiment_analysis (fun _ => 0%float) one_post "full_text")
    as [df1 | e] eqn:H1; [|vm_compute in H1; discriminate].
  destruct (keyword_analysis df1 "full_text" LAYOFF_KEYWORDS "layoff")
    as [df2 | e] eqn:H2;
    [|injection H1 as <-; vm_compute in H2; discriminate].
  exists df1, df2. split; [reflexivity|]. split; [exact H2|].
  destruct (proj1 (annotators_keep_records (fun _ => 0%float) one_post
                     "full_text" "layoff" LAYOFF_KEYWORDS) df1 H1) as (L1 & F1 & _).
  destruct (proj2 (annotators_keep_records (fun _ => 0%float) df1
                     "full_text" "layoff" LAYOFF_KEYWORDS) df2 H2) as (L2 & F2 & _).
  split; [now rewrite L2, L1|]. split.
  - rewrite F2, F1; [reflexivity | discriminate | cbn; intuition discriminate | discriminate].
  - rewrite F2; [| cbn; intuition discriminate | discriminate].
    injection H1 as <-. reflexivity.
Defined.

(** C10. Every string that [extract_companies] returns is one
    capitalized word (an uppercase letter and one or more lowercase
    letters), one space and one of [Inc], [Corp], [Co], [Ltd], so it
    holds exactly one space; from [Acme Global Inc] only [Global Inc] is
    captured, and no text makes the full name a result. *)
Theorem extract_companies_one_word_and_suffix :
  (forall text x, In x (extract_companies text) ->
      company_shape x /\ spaces x = 1%nat)
  /\ extract_companies "Acme Global Inc" = ["Global Inc"]
  /\ (forall text, ~ In "Acme Global Inc" (extract_companies text)).
Proof.
  split; [|split].
  - intros text x Hx. apply extract_companies_shape in Hx.
    split; [exact Hx | now apply company_shape_one_space].
  - vm_compute. reflexivity.
  - intros text Hin. apply extract_companies_shape, company_shape_one_space in Hin.
    vm_compute in Hin. discriminate.
Qed.

(** * Further properties of the code *)

(** ** Annotator and aggregator *)

(** The category score that [keyword_analysis] stores for a record: for
    a list of keywords (fewer than [2^63], as in every Python list) an
    integer between 0 and the number of keywords, one score per record;
    for the empty list the float [0.0] (lines 97-101). *)
Theorem keyword_analysis_score_bounds (df df' : DataFrame)
    (text_column column_prefix : string) (keywords : list string) (texts : list string) :
  wf df ->
  getitem df text_column = Ok (map VStr texts) ->
  (Z.of_nat (List.length keywords) < 2 ^ 63)%Z ->
  keyword_analysis df text_column keywords column_prefix = Ok df' ->
  match keywords with
  | [] => getitem df' (score_column column_prefix) = Ok (repeat (VFloat 0) (len df))
  | _ :: _ =>
      exists scores,
        getitem df' (score_column column_prefix) = Ok (map VInt scores)
        /\ List.length scores = len df
        /\ Forall (fun z => (0 <= z <= Z.of_nat (List.length keywords))%Z) scores
  end.
Proof.
  intros Hwf Htext Hfew Hrun.
  destruct (keyword_analysis_inv _ _ _ _ _ _ Hwf Htext Hrun) as (_ & Hscore & _).
  assert (Hlen : List.length texts = len df).
  { unfold len. rewrite <- (wf_getitem _ _ _ Hwf Htext). now rewrite length_map. }
  destruct keywords as [| k rest].
  - rewrite Hscore, <- Hlen. unfold score_series. cbn [row_score].
    now rewrite repeat_map.
  - set (keywords := k :: rest) in *.
    exists (map (fun x => Z.of_nat (matching_keywords keywords x)) texts).
    split; [|split].
    + rewrite Hscore, score_series_counts; [now rewrite map_map | discriminate | exact Hfew].
    + now rewrite length_map.
    + apply Forall_forall. intros z Hz. apply in_map_iff in Hz as (x & <- & _).
      pose proof (matching_keywords_le keywords x). lia.
Qed.

Lemma keyword_analysis_score_bounds_witness :
  exists scores,
    (df' <- keyword_analysis three_posts "full_text" MERGER_KEYWORDS "merger" ;;
     getitem df' (score_column "merger")) = Ok (map VInt scores)
    /\ Forall (fun z => (0 <= z <= 14)%Z) scores.
Proof.
  destruct (keyword_analysis three_posts "full_text" MERGER_KEYWORDS "merger")
    as [df' | e] eqn:Hrun; [|vm_compute in Hrun; discriminate].
  destruct (keyword_analysis_score_bounds three_posts df' "full_text" "merger"
              MERGER_KEYWORDS
              ["Big Merger announced today"; "nothing to see"; "lunch was fine"]
              (wf_pd_DataFrame _) eq_refl eq_refl Hrun) as (scores & Hscore & _ & Hbound).
  exists scores. split; [exact Hscore | exact Hbound].
Defined.

Lemma lower_app (a b : string) : lower (a +++ b) = lower a +++ lower b.
Proof. induction a as [| c a IH]; simpl; [reflexivity | now rewrite IH]. Qed.

Lemma append_assoc (a b c : string) : (a +++ b) +++ c = a +++ b +++ c.
Proof. induction a as [| x a IH]; simpl; [reflexivity | now rewrite IH]. Qed.

Lemma substring_of_embed (needle x a b : string) :
  substring_of needle x -> substring_of needle (a +++ x +++ b).
Proof.
  intros (p & q & ->). exists (a +++ p), (q +++ b).
  now rewrite !append_assoc.
Qed.

Lemma append_nil_r (a : string) : a +++ "" = a.
Proof. induction a as [| c a IH]; simpl; [reflexivity | now rewrite IH]. Qed.

Lemma keyword_flag_embed (keyword x a b : string) :
  keyword_flag keyword x = 1%Z -> keyword_flag keyword (a +++ x +++ b) = 1%Z.
Proof.
  intros H. apply keyword_flag_spec. rewrite !lower_app.
  apply substring_of_embed. now apply keyword_flag_spec.
Qed.

(** A keyword that occurs in the title or in the body of a post, in
    whatever case, is flagged in their combination of line 145 (lines 99
    and 145). *)
Theorem keyword_flag_of_combined_text (keyword title body : string) :
  keyword_flag keyword title = 1%Z \/ keyword_flag keyword body = 1%Z ->
  keyword_flag keyword (title +++ " " +++ body) = 1%Z.
Proof.
  intros [H | H].
  - exact (keyword_flag_embed keyword title "" (" " +++ body) H).
  - pose proof (keyword_flag_embed keyword body (title +++ " ") "" H) as H'.
    now rewrite append_nil_r, append_assoc in H'.
Qed.

Lemma keyword_flag_of_combined_text_witness :
  keyword_flag "layoff" ("Quarterly news" +++ " " +++ "More LAYOFFS are coming") = 1%Z.
Proof.
  apply (keyword_flag_of_combined_text "layoff" "Quarterly news" "More LAYOFFS are coming").
  right. reflexivity.
Defined.

(** After [keyword_analysis] with a prefix, [calculate_signal_strength]
    with the same prefix always returns: the integer 0 on a frame of no
    record, and otherwise 100 times the number of keyword occurrences
    per record, as a float (lines 97-101 and 129-134). *)
Theorem signal_strength_after_keyword_analysis (df df' : DataFrame)
    (text_column column_prefix : string) (keywords : list string) (texts : list string) :
  wf df ->
  getitem df text_column = Ok (map VStr texts) ->
  keyword_analysis df text_column keywords column_prefix = Ok df' ->
  calculate_signal_strength df' column_prefix
  = match texts with
    | [] => Ok (VInt 0)
    | _ :: _ =>
        Ok (VFloat (float_of_Z (Zsum (map (fun x => Z.of_nat (matching_keywords keywords x))
                                          texts))
                    / float_of_Z (Z.of_nat (List.length texts)) * float_of_Z 100))
    end.
Proof.
  intros Hwf Htext Hrun.
  destruct (keyword_analysis_inv _ _ _ _ _ _ Hwf Htext Hrun) as (Hidx & Hscore & _).
  assert (Hlen : len df' = List.length texts).
  { unfold len. rewrite Hidx, <- (wf_getitem _ _ _ Hwf Htext). apply length_map. }
  destruct texts as [| t texts].
  - unfold calculate_signal_strength. rewrite Hscore, Hlen. reflexivity.
  - apply (calculate_signal_strength_scores df' column_prefix keywords (t :: texts)
             Hscore Hlen).
    discriminate.
Qed.

Lemma signal_strength_after_keyword_analysis_witness :
  (df' <- keyword_analysis two_keyword_post "full_text" MERGER_KEYWORDS "merger" ;;
   calculate_signal_strength df' "merger") = Ok (VFloat 200).
Proof.
  destruct (keyword_analysis two_keyword_post "full_text" MERGER_KEYWORDS "merger")
    as [df' | e] eqn:Hrun; [|vm_compute in Hrun; discriminate].
  cbn [bind].
  rewrite (signal_strength_after_keyword_analysis two_keyword_post df' "full_text"
             "merger" MERGER_KEYWORDS ["Merger after the acquisition"]
             (wf_pd_DataFrame _) eq_refl Hrun).
  vm_compute. reflexivity.
Defined.

(** ** Entity extractor *)

Lemma scan_occurs (r : regex) (w : list ascii) :
  forall (s : list ascii) (skip : nat) (prev : option ascii),
    In w (scan r skip prev s) -> exists a b, s = a ++ w ++ b.
Proof.
  induction s as [| c s IH]; intros skip prev H; [destruct H|].
  assert (Hlater : forall k p, In w (scan r k p s) -> exists a b, c :: s = a ++ w ++ b).
  { intros k p Hin. destruct (IH _ _ Hin) as (a & b & ->). now exists (c :: a), b. }
  cbn [scan] in H. destruct skip as [| n]; [|now apply Hlater in H].
  destruct (match_len r prev (c :: s)) as [[| n] |] eqn:E;
    try (now apply Hlater in H).
  destruct H as [<- | H]; [|now apply Hlater in H].
  exists [], (skipn (S n) (c :: s)). cbn [app]. now rewrite firstn_skipn.
Qed.

(** Every string that [extract_companies] returns occurs in the text,
    and a text without an uppercase letter yields no string at all
    (lines 124-127). *)
Theorem extract_companies_occur_in_text (text : string) :
  (forall x, In x (extract_companies text) -> substring_of x text)
  /\ (Forall (fun c => is_upper c = false) (list_ascii_of_string text) ->
      extract_companies text = []).
Proof.
  unfold extract_companies, findall. split.
  - intros x H. apply in_map_iff in H as (w & <- & Hw).
    apply scan_occurs in Hw as (a & b & Hs).
    exists (string_of_list_ascii a), (string_of_list_ascii b).
    rewrite <- !string_of_list_ascii_app, <- Hs.
    now rewrite string_of_list_ascii_of_string.
  - intros H.
    rewrite <- (app_nil_r (list_ascii_of_string text)).
    now rewrite (scan_no_upper _ [] None H).
Qed.

(** In ASCII text, a capitalized word, a space and a suffix token are
    found wherever they stand with no word character directly before or
    behind them, provided the capital starts no suffix token itself (it
    is not [I], [C] or [L]); after [Foo ] the name [Inc Corp] is not
    found, [Foo Inc] being matched first (lines 124-127). *)
Theorem extract_companies_finds_delimited (pre post : string) (u : ascii)
    (ls suffix : string) :
  isascii pre = true ->
  isascii post = true ->
  ends_with_word pre = false ->
  starts_with_word post = false ->
  is_upper u = true ->
  ls <> "" ->
  Forall (fun c => is_lower c = true) (list_ascii_of_string ls) ->
  In suffix SUFFIXES ->
  no_suffix_initial u = true ->
  In (String u ls +++ " " +++ suffix)
     (extract_companies (pre +++ (String u ls +++ " " +++ suffix) +++ post))
  /\ extract_companies "Foo Inc Corp" = ["Foo Inc"].
Proof.
  unfold ends_with_word, starts_with_word, extract_companies, findall.
  intros _ _ Hpre Hpost Hu Hne Hall Hin Hinit. split; [|vm_compute; reflexivity].
  rewrite !list_ascii_of_string_app. cbn [list_ascii_of_string app].
  destruct (scan_finds None (list_ascii_of_string pre) u (list_ascii_of_string ls)
              suffix (list_ascii_of_string post)) as [before H]; auto.
  { destruct ls; [now elim Hne | discriminate]. }
  cbv zeta in H. cbn [app] in H.
  rewrite H. apply in_map_iff.
  exists (u :: list_ascii_of_string ls ++ " "%char :: list_ascii_of_string suffix).
  split.
  - cbn [string_of_list_ascii]. rewrite string_of_list_ascii_app.
    cbn [string_of_list_ascii]. now rewrite !string_of_list_ascii_of_string.
  - apply in_or_app. right. now left.
Qed.

Lemma extract_companies_finds_delimited_witness :
  In "Globex Ltd" (extract_companies ("(see " +++ "Globex Ltd" +++ ")")).
Proof.
  apply (proj1 (extract_companies_finds_delimited "(see " ")" "G" "lobex" "Ltd"
                  eq_refl eq_refl eq_refl eq_refl eq_refl ltac:(discriminate)
                  ltac:(repeat constructor) ltac:(cbn; tauto) eq_refl)).
Defined.

(** ** Tally *)

Lemma StronglySorted_app_inv {A : Type} (R : A -> A -> Prop) (l1 l2 : list A) :
  StronglySorted R (l1 ++ l2) ->
  forall a b, In a l1 -> In b l2 -> R a b.
Proof.
  induction l1 as [| x l1 IH]; intros H a b Ha Hb; [destruct Ha|].
  cbn [app] in H. inversion H as [| ? ? Hs Hall]; subst.
  destruct Ha as [<- | Ha].
  - rewrite Forall_forall in Hall. apply Hall. apply in_or_app. now right.
  - now apply IH.
Qed.

Lemma length_insert_desc (p : string * nat) (l : list (string * nat)) :
  List.length (insert_desc p l) = S (List.length l).
Proof.
  induction l as [| q l IH]; [reflexivity|].
  cbn [insert_desc]. destruct (snd q <=? snd p)%nat; cbn [List.length];
    [reflexivity | now rewrite IH].
Qed.

Lemma length_sort_desc (l : list (string * nat)) :
  List.length (sort_desc l) = List.length l.
Proof.
  induction l as [| p l IH]; [reflexivity|].
  cbn [sort_desc fold_right]. fold (sort_desc l).
  rewrite length_insert_desc. cbn [List.length]. now rewrite IH.
Qed.

(** [most_common(n)] keeps the most frequent entities: an entity of the
    tally that it leaves out is no more frequent than any entity it
    returns; no entity is returned twice; and when the tally has at most
    [n] entities, every item is returned with its number of occurrences
    (lines 170-171). *)
Theorem most_common_keeps_most_frequent (n : nat) (items : list string) :
  let tally := most_common n (Counter items) in
  (forall p q, In p tally -> In q (Counter items) -> ~ In q tally ->
      (snd q <= snd p)%nat)
  /\ (forall i j p q, (i < j)%nat ->
        nth_error tally i = Some p -> nth_error tally j = Some q -> fst p <> fst q)
  /\ ((List.length (Counter items) <= n)%nat ->
      forall x, In x items -> In (x, count_occ string_dec items x) tally).
Proof.
  cbv zeta. unfold most_common.
  assert (Hsorted : StronglySorted (listed_before items) (sort_desc (Counter items))).
  { apply sort_desc_sorted.
    apply (StronglySorted_map_inv fst
             (fun a b => (index_of a items < index_of b items)%nat)).
    apply Counter_spec. }
  split; [|split].
  - intros p q Hp Hq Hnot.
    rewrite <- (firstn_skipn n (sort_desc (Counter items))) in Hsorted.
    assert (Hq' : In q (skipn n (sort_desc (Counter items)))).
    { apply In_sort_desc in Hq.
      rewrite <- (firstn_skipn n (sort_desc (Counter items))) in Hq.
      apply in_app_or in Hq as [Hq | Hq]; [contradiction | exact Hq]. }
    pose proof (StronglySorted_app_inv _ _ _ Hsorted p q Hp Hq') as H.
    unfold listed_before in H. lia.
  - intros i j p q Hij Hp Hq Heq.
    pose proof (StronglySorted_nth_error _ _ (StronglySorted_firstn _ n _ Hsorted)
                  i j p q Hij Hp Hq) as H.
    assert (Hin : forall k e, nth_error (firstn n (sort_desc (Counter items))) k = Some e ->
                              snd e = count_occ string_dec items (fst e)).
    { intros k [x m] He. apply nth_error_In in He.
      assert (Hc : In (x, m) (Counter items)).
      { apply In_sort_desc. rewrite <- (firstn_skipn n (sort_desc (Counter items))).
        apply in_or_app. now left. }
      apply Counter_entry in Hc. cbn. tauto. }
    apply Hin in Hp, Hq. unfold listed_before in H. rewrite Heq in *. lia.
  - intros Hlen x Hx.
    rewrite firstn_all2.
    + apply In_sort_desc. apply lookup_In. now apply Counter_spec.
    + now rewrite length_sort_desc.
Qed.

(** ** Fetcher *)

Definition POST_COLUMNS : list string :=
  ["title"; "score"; "id"; "url"; "comms_num"; "created"; "body"].

Definition COMMENT_COLUMNS : list string :=
  ["post_id"; "comment_id"; "comment_parent_id"; "comment_body"; "comment_score";
   "created"].

(** The comments kept by the loop of lines 78-86, each with its post. *)
Definition fetched_comments (listing : list Submission) (num_comments : nat)
    : list (Submission * Comment) :=
  flat_map (fun post => map (pair post) (firstn num_comments (s_comments post))) listing.

Lemma comment_dicts_of_pairs (listing : list Submission) (num_comments : nat) :
  flat_map (fun post => map (comment_dict post) (firstn num_comments (s_comments post)))
           listing
  = map (fun pc => comment_dict (fst pc) (snd pc)) (fetched_comments listing num_comments).
Proof.
  unfold fetched_comments. induction listing as [| post listing IH]; [reflexivity|].
  cbn [flat_map]. rewrite map_app, map_map, IH. reflexivity.
Qed.

Lemma posts_frame (listing : list Submission) :
  listing <> [] ->
  pd_DataFrame (map post_dict listing)
  = mkDataFrame (List.length listing)
      [ ("title", map (fun p => VStr (s_title p)) listing);
        ("score", map (fun p => VInt (s_score p)) listing);
        ("id", map (fun p => VStr (s_id p)) listing);
        ("url", map (fun p => VStr (s_url p)) listing);
        ("comms_num", map (fun p => VInt (s_num_comments p)) listing);
        ("created", map (fun p => VTime (s_created_utc p)) listing);
        ("body", map (fun p => VStr (s_selftext p)) listing) ].
Proof.
  intros Hne. unfold pd_DataFrame.
  assert (Hkeys : fold_left keys_of (map post_dict listing) [] = POST_COLUMNS).
  { destruct listing as [| p l]; [tauto|]. cbn [map fold_left].
    change (keys_of [] (post_dict p)) with POST_COLUMNS.
    clear. induction l as [| q l IH]; [reflexivity|]. cbn [map fold_left].
    change (keys_of POST_COLUMNS (post_dict q)) with POST_COLUMNS. exact IH. }
  rewrite Hkeys, length_map. cbn [map POST_COLUMNS]. rewrite !map_map.
  repeat (rewrite infer_column_exact by reflexivity). reflexivity.
Qed.

Lemma comments_frame (pairs : list (Submission * Comment)) :
  pairs <> [] ->
  pd_DataFrame (map (fun pc => comment_dict (fst pc) (snd pc)) pairs)
  = mkDataFrame (List.length pairs)
      [ ("post_id", map (fun pc => VStr (s_id (fst pc))) pairs);
        ("comment_id", map (fun pc => VStr (c_id (snd pc))) pairs);
        ("comment_parent_id", map (fun pc => VStr (c_parent_id (snd pc))) pairs);
        ("comment_body", map (fun pc => VStr (c_body (snd pc))) pairs);
        ("comment_score", map (fun pc => VInt (c_score (snd pc))) pairs);
        ("created", map (fun pc => VTime (c_created_utc (snd pc))) pairs) ].
Proof.
  intros Hne. unfold pd_DataFrame.
  assert (Hkeys : fold_left keys_of (map (fun pc => comment_dict (fst pc) (snd pc)) pairs) []
                  = COMMENT_COLUMNS).
  { destruct pairs as [| p l]; [tauto|]. cbn [map fold_left].
    change (keys_of [] (comment_dict (fst p) (snd p))) with COMMENT_COLUMNS.
    clear. induction l as [| q l IH]; [reflexivity|]. cbn [map fold_left].
    change (keys_of COMMENT_COLUMNS (comment_dict (fst q) (snd q))) with COMMENT_COLUMNS.
    exact IH. }
  rewrite Hkeys, length_map. cbn [map COMMENT_COLUMNS]. rewrite !map_map.
  repeat (rewrite infer_column_exact by reflexivity). reflexivity.
Qed.

Lemma fetched_comments_post (listing : list Submission) (num_comments : nat)
    (pc : Submission * Comment) :
  In pc (fetched_comments listing num_comments) ->
  In (fst pc) listing /\ In (snd pc) (firstn num_comments (s_comments (fst pc))).
Proof.
  unfold fetched_comments. intros H. apply in_flat_map in H as (post & Hpost & H).
  apply in_map_iff in H as (c & <- & Hc). now split.
Qed.

Lemma length_fetched_comments (listing : list Submission) (num_comments : nat) :
  (List.length (fetched_comments listing num_comments)
   <= List.length listing * num_comments)%nat.
Proof.
  unfold fetched_comments. induction listing as [| post listing IH]; [apply Nat.le_refl|].
  cbn [flat_map List.length]. rewrite length_app, length_map.
  pose proof (firstn_le_length num_comments (s_comments post)). lia.
Qed.

Lemma map_fetched_comments {B : Type} (g : Submission * Comment -> B)
    (listing : list Submission) (num_comments : nat) :
  map g (fetched_comments listing num_comments)
  = flat_map (fun post => map (fun c => g (post, c))
                              (firstn num_comments (s_comments post))) listing.
Proof.
  unfold fetched_comments. induction listing as [| post listing IH]; [reflexivity|].
  cbn [flat_map]. now rewrite map_app, map_map, IH.
Qed.

Lemma length_fetched_comments_eq (listing : list Submission) (num_comments : nat) :
  List.length (fetched_comments listing num_comments)
  = List.length (flat_map (fun post => firstn num_comments (s_comments post)) listing).
Proof.
  unfold fetched_comments. induction listing as [| post listing IH]; [reflexivity|].
  cbn [flat_map]. now rewrite !length_app, length_map, IH.
Qed.

(** The fetcher returns without changing the world.  The posts frame
    has one row per post of the listing, at most [num_posts]; the
    comments frame holds, post after post in the order of the listing,
    the first [num_comments] comments of each post, so at most
    [num_comments] rows per post; a frame of no row has no column, any
    other has the columns of lines 67-75 and 80-86 in that order; and
    every value of the comments' [post_id] column is a value of the
    posts' [id] column (lines 61-91). *)
Theorem analyze_subreddit_frames (subreddit_name : string) (num_posts num_comments : nat)
    (w : World) :
  let listing := firstn num_posts (hot w subreddit_name) in
  let kept := fun post : Submission => firstn num_comments (s_comments post) in
  exists posts_df comments_df,
    analyze_subreddit subreddit_name num_posts num_comments w
    = (Ok (posts_df, comments_df), w)
    /\ len posts_df = Nat.min num_posts (List.length (hot w subreddit_name))
    /\ len comments_df = List.length (flat_map kept listing)
    /\ (forall post,
          List.length (kept post) = Nat.min num_comments (List.length (s_comments post)))
    /\ (len comments_df <= len posts_df * num_comments)%nat
    /\ map fst (columns posts_df)
       = (if (len posts_df =? 0)%nat then [] else POST_COLUMNS)
    /\ map fst (columns comments_df)
       = (if (len comments_df =? 0)%nat then [] else COMMENT_COLUMNS)
    /\ (len posts_df <> 0%nat ->
          getitem posts_df "id" = Ok (map (fun post => VStr (s_id post)) listing)
          /\ getitem posts_df "title" = Ok (map (fun post => VStr (s_title post)) listing)
          /\ getitem posts_df "body" = Ok (map (fun post => VStr (s_selftext post)) listing))
    /\ (len comments_df <> 0%nat ->
          getitem comments_df "post_id"
          = Ok (flat_map (fun post => map (fun _ => VStr (s_id post)) (kept post)) listing)
          /\ getitem comments_df "comment_id"
             = Ok (flat_map (fun post => map (fun c => VStr (c_id c)) (kept post)) listing)
          /\ getitem comments_df "comment_body"
             = Ok (flat_map (fun post => map (fun c => VStr (c_body c)) (kept post)) listing))
    /\ (forall ids post_ids,
           getitem posts_df "id" = Ok ids ->
           getitem comments_df "post_id" = Ok post_ids ->
           incl post_ids ids).
Proof.
  cbv zeta. unfold analyze_subreddit. cbv zeta.
  set (listing := firstn num_posts (hot w subreddit_name)).
  rewrite comment_dicts_of_pairs.
  set (pairs := fetched_comments listing num_comments).
  eexists _, _. split; [reflexivity|].
  assert (Hp : len (pd_DataFrame (map post_dict listing)) = List.length listing).
  { unfold len, pd_DataFrame. cbn [index]. apply length_map. }
  assert (Hc : len (pd_DataFrame (map (fun pc => comment_dict (fst pc) (snd pc)) pairs))
               = List.length pairs).
  { unfold len, pd_DataFrame. cbn [index]. apply length_map. }
  rewrite Hp, Hc. split; [apply length_firstn|].
  split; [apply length_fetched_comments_eq|].
  split; [intros post; apply length_firstn|].
  split; [apply length_fetched_comments|].
  split; [|split; [|split; [|split]]].
  - destruct listing as [| p l] eqn:E; [reflexivity|].
    rewrite posts_frame by discriminate. reflexivity.
  - destruct pairs as [| p l] eqn:E; [reflexivity|].
    rewrite comments_frame by discriminate. reflexivity.
  - intros Hne. rewrite posts_frame by (intros E; rewrite E in Hne; now apply Hne).
    repeat split.
  - intros Hne. rewrite comments_frame by (intros E; rewrite E in Hne; now apply Hne).
    cbn [getitem columns lookup String.eqb Ascii.eqb Bool.eqb]. unfold pairs.
    split; [|split]; f_equal.
    + exact (map_fetched_comments (fun pc => VStr (s_id (fst pc))) listing num_comments).
    + exact (map_fetched_comments (fun pc => VStr (c_id (snd pc))) listing num_comments).
    + exact (map_fetched_comments (fun pc => VStr (c_body (snd pc))) listing num_comments).
  - intros ids post_ids Hids Hpids.
    destruct pairs as [| pc0 l] eqn:E; [discriminate|]. rewrite <- E in *.
    assert (Hl : listing <> []).
    { intros Hnil. subst pairs. rewrite Hnil in E. discriminate. }
    rewrite posts_frame in Hids by exact Hl.
    rewrite comments_frame in Hpids by (rewrite E; discriminate).
    injection Hids as <-. injection Hpids as <-.
    intros v Hv. apply in_map_iff in Hv as (pc & <- & Hpc).
    apply fetched_comments_post in Hpc as [Hpost _].
    apply in_map_iff. now exists (fst pc).
Qed.

(** ** The annotation chain of the orchestrator *)

Lemma series_apply_length (f : value -> result value) (s out : Series) :
  series_apply f s = Ok out -> List.length out = List.length s.
Proof.
  revert out. induction s as [| x s IH]; intros out H.
  - now injection H as <-.
  - cbn [series_apply] in H. apply bind_Ok in H as (y & _ & H).
    apply bind_Ok in H as (ys & Hys & H). injection H as <-.
    cbn [List.length]. now rewrite (IH _ Hys).
Qed.

Lemma wf_keyword_loop (text_column column_prefix : string) (keywords : list string) :
  forall df df', wf df ->
    keyword_loop df text_column keywords column_prefix = Ok df' -> wf df'.
Proof.
  induction keywords as [| k rest IH]; intros df df' Hwf Hrun.
  - now injection Hrun as <-.
  - cbn [keyword_loop] in Hrun.
    apply bind_Ok in Hrun as (col & Hcol & Hrun).
    apply bind_Ok in Hrun as (flags & Hflags & Hrun).
    apply (IH _ _ (wf_setitem _ _ _ Hwf
                     (eq_trans (series_apply_length _ _ _ Hflags)
                               (wf_getitem _ _ _ Hwf Hcol))) Hrun).
Qed.

Lemma wf_keyword_analysis (df df' : DataFrame) (text_column column_prefix : string)
    (keywords : list string) :
  wf df -> keyword_analysis df text_column keywords column_prefix = Ok df' -> wf df'.
Proof.
  unfold keyword_analysis. intros Hwf Hrun.
  apply bind_Ok in Hrun as (df1 & Hloop & Hrun).
  apply bind_Ok in Hrun as (cols & _ & Hrun).
  apply bind_Ok in Hrun as (score & Hscore & Hrun). injection Hrun as <-.
  apply wf_setitem; [now apply (wf_keyword_loop _ _ _ _ _ Hwf Hloop)|].
  unfold sum_axis1 in Hscore. destruct cols as [| c cols].
  - injection Hscore as <-. apply repeat_length.
  - apply bind_Ok in Hscore as (zss & _ & Hscore).
    injection Hscore as <-. now rewrite length_map, length_seq.
Qed.

(** The columns that [keyword_analysis] writes. *)
Definition written (column_prefix : string) (keywords : list string) : list string :=
  score_column column_prefix :: map (flag_column column_prefix) keywords.

Definition untouched (c column_prefix : string) (keywords : list string) : bool :=
  negb (existsb (String.eqb c) (written column_prefix keywords)).

Lemma untouched_spec (c column_prefix : string) (keywords : list string) :
  untouched c column_prefix keywords = true ->
  ~ In c (map (flag_column column_prefix) keywords) /\ c <> score_column column_prefix.
Proof.
  unfold untouched, written. intros H. apply negb_true_iff in H.
  split; intros Hc.
  - assert (E : existsb (String.eqb c)
                  (score_column column_prefix :: map (flag_column column_prefix) keywords)
                = true).
    { apply existsb_exists. exists c. split; [now right | apply String.eqb_refl]. }
    congruence.
  - assert (E : existsb (String.eqb c)
                  (score_column column_prefix :: map (flag_column column_prefix) keywords)
                = true).
    { apply existsb_exists. exists c. split; [now left | apply String.eqb_refl]. }
    congruence.
Qed.

(** One call of [keyword_analysis] in the chain. *)
Lemma keyword_analysis_step (df : DataFrame) (text_column column_prefix : string)
    (keywords : list string) (texts : list string) :
  wf df ->
  getitem df text_column = Ok (map VStr texts) ->
  untouched text_column column_prefix keywords = true ->
  existsb (String.eqb "score") keywords = false ->
  exists df',
    keyword_analysis df text_column keywords column_prefix = Ok df'
    /\ wf df'
    /\ len df' = len df
    /\ getitem df' (score_column column_prefix) = Ok (score_series keywords texts)
    /\ (forall k, In k keywords ->
          getitem df' (flag_column column_prefix k) = Ok (flag_series k texts))
    /\ (forall c, untouched c column_prefix keywords = true ->
          getitem df' c = getitem df c).
Proof.
  intros Hwf Htext Hclear Hscore.
  destruct (untouched_spec _ _ _ Hclear) as [Hnot _].
  destruct (keyword_analysis_runs _ _ _ _ _ Hwf Htext Hnot) as [df' Hrun].
  destruct (keyword_analysis_inv _ _ _ _ _ _ Hwf Htext Hrun)
    as (Hidx & Hs & Hflags & Hframe & _).
  exists df'. split; [exact Hrun|]. split; [now apply (wf_keyword_analysis _ _ _ _ _ Hwf Hrun)|].
  split; [exact Hidx|]. split; [exact Hs|]. split.
  - intros k Hk. apply Hflags; [exact Hk|]. intros ->.
    assert (E : existsb (String.eqb "score") keywords = true).
    { apply existsb_exists. exists "score". split; [exact Hk | reflexivity]. }
    congruence.
  - intros c Hc. destruct (untouched_spec _ _ _ Hc). now apply Hframe.
Qed.

(** The column names on which the chain must not write: the text
    column, [created], and what earlier steps wrote. *)
Definition clear_of_lexicons (c : string) : bool :=
  negb (String.eqb c "sentiment")
  && untouched c "merger" MERGER_KEYWORDS
  && untouched c "layoff" LAYOFF_KEYWORDS
  && untouched c "reassign" REASSIGNMENT_KEYWORDS
  && untouched c "reduced_work" REDUCED_WORKLOAD_KEYWORDS.

Section Chain.

Variable polarity : string -> float.

(** The five annotation steps of lines 148-160 on one frame. *)
Lemma annotate_runs (df : DataFrame) (text_column : string) (texts : list string)
    (created : Series) :
  wf df ->
  getitem df text_column = Ok (map VStr texts) ->
  getitem df "created" = Ok created ->
  clear_of_lexicons text_column = true ->
  exists df1 df2 df3 df4 df5,
    sentiment_analysis polarity df text_column = Ok df1
    /\ keyword_analysis df1 text_column MERGER_KEYWORDS "merger" = Ok df2
    /\ keyword_analysis df2 text_column LAYOFF_KEYWORDS "layoff" = Ok df3
    /\ keyword_analysis df3 text_column REASSIGNMENT_KEYWORDS "reassign" = Ok df4
    /\ keyword_analysis df4 text_column REDUCED_WORKLOAD_KEYWORDS "reduced_work" = Ok df5
    /\ len df5 = List.length texts
    /\ getitem df5 text_column = Ok (map VStr texts)
    /\ getitem df5 "created" = Ok created
    /\ getitem df5 "sentiment" = Ok (map (fun x => VFloat (polarity x)) texts)
    /\ (forall k, In k MERGER_KEYWORDS ->
          getitem df5 (flag_column "merger" k) = Ok (flag_series k texts))
    /\ getitem df5 (score_column "merger") = Ok (score_series MERGER_KEYWORDS texts)
    /\ getitem df5 (score_column "layoff") = Ok (score_series LAYOFF_KEYWORDS texts)
    /\ getitem df5 (score_column "reassign") = Ok (score_series REASSIGNMENT_KEYWORDS texts)
    /\ getitem df5 (score_column "reduced_work")
       = Ok (score_series REDUCED_WORKLOAD_KEYWORDS texts).
Proof.
  intros Hwf Htext Hcreated Hclear.
  unfold clear_of_lexicons in Hclear.
  apply andb_true_iff in Hclear as [Hclear H4].
  apply andb_true_iff in Hclear as [Hclear H3].
  apply andb_true_iff in Hclear as [Hclear H2].
  apply andb_true_iff in Hclear as [H0 H1].
  apply negb_true_iff, String.eqb_neq in H0.
  assert (Hlen : List.length texts = index df).
  { rewrite <- (wf_getitem _ _ _ Hwf Htext). now rewrite length_map. }
  set (df1 := setitem df "sentiment" (map (fun x => VFloat (polarity x)) texts)).
  assert (Hwf1 : wf df1) by (apply wf_setitem; [exact Hwf | now rewrite length_map]).
  assert (Ht1 : getitem df1 text_column = Ok (map VStr texts)).
  { unfold df1. now rewrite getitem_setitem_other. }
  destruct (keyword_analysis_step df1 text_column "merger" MERGER_KEYWORDS texts
              Hwf1 Ht1 H1 eq_refl) as (df2 & R2 & Hwf2 & L2 & S2 & F2 & K2).
  assert (Ht2 : getitem df2 text_column = Ok (map VStr texts)) by now rewrite K2.
  destruct (keyword_analysis_step df2 text_column "layoff" LAYOFF_KEYWORDS texts
              Hwf2 Ht2 H2 eq_refl) as (df3 & R3 & Hwf3 & L3 & S3 & F3 & K3).
  assert (Ht3 : getitem df3 text_column = Ok (map VStr texts)) by now rewrite K3.
  destruct (keyword_analysis_step df3 text_column "reassign" REASSIGNMENT_KEYWORDS texts
              Hwf3 Ht3 H3 eq_refl) as (df4 & R4 & Hwf4 & L4 & S4 & F4 & K4).
  assert (Ht4 : getitem df4 text_column = Ok (map VStr texts)) by now rewrite K4.
  destruct (keyword_analysis_step df4 text_column "reduced_work" REDUCED_WORKLOAD_KEYWORDS
              texts Hwf4 Ht4 H4 eq_refl) as (df5 & R5 & Hwf5 & L5 & S5 & F5 & K5).
  exists df1, df2, df3, df4, df5.
  split; [now apply sentiment_analysis_runs|].
  split; [exact R2|]. split; [exact R3|]. split; [exact R4|]. split; [exact R5|].
  split; [rewrite L5, L4, L3, L2; unfold len, df1; cbn [index setitem]; now rewrite Hlen|].
  split; [now rewrite K5|].
  split; [rewrite K5, K4, K3, K2 by reflexivity; unfold df1;
          now rewrite getitem_setitem_other by discriminate|].
  split; [rewrite K5, K4, K3, K2 by reflexivity; unfold df1;
          apply getitem_setitem_same|].
  split.
  - assert (E3 : forall k, In k MERGER_KEYWORDS ->
                  untouched (flag_column "merger" k) "layoff" LAYOFF_KEYWORDS = true).
    { apply forallb_forall. vm_compute. reflexivity. }
    assert (E4 : forall k, In k MERGER_KEYWORDS ->
                  untouched (flag_column "merger" k) "reassign" REASSIGNMENT_KEYWORDS
                  = true).
    { apply forallb_forall. vm_compute. reflexivity. }
    assert (E5 : forall k, In k MERGER_KEYWORDS ->
                  untouched (flag_column "merger" k) "reduced_work"
                    REDUCED_WORKLOAD_KEYWORDS = true).
    { apply forallb_forall. vm_compute. reflexivity. }
    intros k Hk. rewrite K5, K4, K3 by auto. now apply F2.
  - split; [rewrite K5, K4, K3 by reflexivity; exact S2|].
    split; [rewrite K5, K4 by reflexivity; exact S3|].
    split; [rewrite K5 by reflexivity; exact S4 | exact S5].
Qed.

End Chain.

(** ** Complete runs of the orchestrator *)

Lemma io_bind_lift {A B : Type} (m : result A) (f : A -> IO B) (w : World) (a : A) :
  m = Ok a -> io_bind (lift m) f w = f a w.
Proof. intros ->. reflexivity. Qed.

Lemma io_bind_lift_Raise {A B : Type} (m : result A) (f : A -> IO B) (w : World) (e : exn) :
  m = Raise e -> io_bind (lift m) f w = (Raise e, w).
Proof. intros ->. reflexivity. Qed.

Lemma io_bind_Ok {A B : Type} (m : IO A) (f : A -> IO B) (w w1 : World) (a : A) :
  m w = (Ok a, w1) -> io_bind m f w = f a w1.
Proof. unfold io_bind. now intros ->. Qed.

Lemma series_concat_strs {A : Type} (f g : A -> string) (sep : string) (l : list A) :
  series_concat (map (fun x => VStr (f x)) l) sep (map (fun x => VStr (g x)) l)
  = Ok (map VStr (map (fun x => f x +++ sep +++ g x) l)).
Proof. induction l as [| x l IH]; cbn; [reflexivity | now rewrite IH]. Qed.

Lemma series_strs_VStr (texts : list string) : series_strs (map VStr texts) = Ok texts.
Proof. induction texts as [| t ts IH]; cbn; [reflexivity | now rewrite IH]. Qed.

Lemma keyword_counts_runs (df : DataFrame) (column_prefix : string)
    (keywords : list string) (texts : list string) :
  (forall k, In k keywords ->
     getitem df (flag_column column_prefix k) = Ok (flag_series k texts)) ->
  exists counts, keyword_counts df keywords column_prefix = Ok counts.
Proof.
  induction keywords as [| k rest IH]; intros H; [now exists []|].
  cbn [keyword_counts]. rewrite (H k) by now left. cbn [bind].
  unfold flag_series. rewrite <- (map_map (keyword_flag k) VInt), series_sum_VInt.
  cbn [bind].
  destruct IH as [counts Hc]; [intros k' Hk'; apply H; now right|].
  rewrite Hc. cbn [bind]. eauto.
Qed.

Lemma plot_sentiment_over_time_runs (df : DataFrame) (title output_dir : string)
    (w : World) (created sentiment : Series) :
  getitem df "created" = Ok created ->
  getitem df "sentiment" = Ok sentiment ->
  plot_sentiment_over_time df title output_dir w
  = (Ok tt, mkWorld (hot w) (now w) (dirs w) (log w)
              (files w ++ [(output_dir +++ "/sentiment_" +++ lower title +++ ".png", Png)])).
Proof.
  intros Hc Hs. unfold plot_sentiment_over_time.
  rewrite (io_bind_lift _ _ _ _ Hc), (io_bind_lift _ _ _ _ Hs). reflexivity.
Qed.

Lemma plot_keyword_frequency_runs (df : DataFrame) (keywords : list string)
    (title column_prefix output_dir : string) (w : World)
    (counts : list (string * value)) :
  keyword_counts df keywords column_prefix = Ok counts ->
  plot_keyword_frequency df keywords title column_prefix output_dir w
  = (Ok tt, mkWorld (hot w) (now w) (dirs w) (log w)
              (files w ++ [(output_dir +++ "/keyword_frequency_" +++ lower title +++ ".png",
                            Png)])).
Proof.
  intros Hc. unfold plot_keyword_frequency.
  rewrite (io_bind_lift _ _ _ _ Hc). reflexivity.
Qed.

(** The sum of lines 174-177 on two annotated frames with a record
    each: the float sum of the two strengths. *)
Lemma combined_signal_value (posts_df comments_df : DataFrame) (column_prefix : string)
    (keywords : list string) (texts bodies : list string) :
  getitem posts_df (score_column column_prefix) = Ok (score_series keywords texts) ->
  getitem comments_df (score_column column_prefix) = Ok (score_series keywords bodies) ->
  len posts_df = List.length texts -> len comments_df = List.length bodies ->
  texts <> [] -> bodies <> [] ->
  calculate_signal_strength posts_df column_prefix = Ok (VFloat (strength keywords texts))
  /\ calculate_signal_strength comments_df column_prefix
     = Ok (VFloat (strength keywords bodies))
  /\ combined_signal posts_df comments_df column_prefix
     = Ok (VFloat (strength keywords texts + strength keywords bodies)).
Proof.
  intros Hp Hc Lp Lc Np Nc.
  pose proof (calculate_signal_strength_scores _ _ _ _ Hp Lp Np) as Sp.
  pose proof (calculate_signal_strength_scores _ _ _ _ Hc Lc Nc) as Sc.
  split; [exact Sp|]. split; [exact Sc|].
  unfold combined_signal. rewrite Sp, Sc. reflexivity.
Qed.

(** The categories of lines 152-160 with their keyword lists. *)
Definition CATEGORIES : list (string * list string) :=
  [ ("merger", MERGER_KEYWORDS); ("layoff", LAYOFF_KEYWORDS);
    ("reassign", REASSIGNMENT_KEYWORDS); ("reduced_work", REDUCED_WORKLOAD_KEYWORDS) ].

(** The run of the pipeline on a forum with a post and a comment. *)
Lemma analyze_company_run (polarity : string -> float)
    (mean : list float -> float) (subreddit_name : string) (w : World) :
  let listing := firstn 100 (hot w subreddit_name) in
  let pairs := fetched_comments listing 100 in
  let texts := map (fun p => s_title p +++ " " +++ s_selftext p) listing in
  let bodies := map (fun pc => c_body (snd pc)) pairs in
  let output_dir := "output/" +++ subreddit_name +++ "_" +++ now w in
  listing <> [] ->
  pairs <> [] ->
  exists posts_df comments_df,
    analyze_company polarity mean subreddit_name w
    = (Ok tt,
       mkWorld (hot w) (now w)
         (dirs w ++ [output_dir])
         (log w ++ [ "Starting analysis for r/" +++ subreddit_name;
                     "Analysis complete for r/" +++ subreddit_name
                     +++ ". Report saved to " +++ output_dir +++ "/report.txt" ])
         (files w ++ [ (output_dir +++ "/sentiment_posts.png", Png);
                       (output_dir +++ "/sentiment_comments.png", Png);
                       (output_dir +++ "/keyword_frequency_merger keywords (posts).png", Png);
                       (output_dir +++ "/keyword_frequency_merger keywords (comments).png",
                        Png);
                       (output_dir +++ "/report.txt",
                        ReportTxt
                          (mkReport subreddit_name
                             (VFloat (strength MERGER_KEYWORDS texts
                                      + strength MERGER_KEYWORDS bodies))
                             (VFloat (strength LAYOFF_KEYWORDS texts
                                      + strength LAYOFF_KEYWORDS bodies))
                             (VFloat (strength REASSIGNMENT_KEYWORDS texts
                                      + strength REASSIGNMENT_KEYWORDS bodies))
                             (VFloat (strength REDUCED_WORKLOAD_KEYWORDS texts
                                      + strength REDUCED_WORKLOAD_KEYWORDS bodies))
                             (most_common 10
                                (Counter (extract_companies
                                   (join " " texts +++ " " +++ join " " bodies))))
                             (mean (map polarity texts))
                             (mean (map polarity bodies))));
                       (output_dir +++ "/posts.csv", Csv posts_df);
                       (output_dir +++ "/comments.csv", Csv comments_df) ]))
    /\ len posts_df = List.length listing
    /\ len comments_df = List.length pairs
    /\ getitem posts_df "full_text" = Ok (map VStr texts)
    /\ getitem comments_df "comment_body" = Ok (map VStr bodies)
    /\ (forall column_prefix keywords, In (column_prefix, keywords) CATEGORIES ->
          calculate_signal_strength posts_df column_prefix
          = Ok (VFloat (strength keywords texts))
          /\ calculate_signal_strength comments_df column_prefix
             = Ok (VFloat (strength keywords bodies))).
Proof.
  cbv zeta. intros Hl Hc.
  set (listing := firstn 100 (hot w subreddit_name)) in *.
  set (pairs := fetched_comments listing 100) in *.
  set (texts := map (fun p => s_title p +++ " " +++ s_selftext p) listing).
  set (bodies := map (fun pc => c_body (snd pc)) pairs).
  pose proof (posts_frame listing Hl) as Hpf.
  pose proof (comments_frame pairs Hc) as Hcf.
  (* line 145 *)
  assert (Hfull : (title <- getitem (pd_DataFrame (map post_dict listing)) "title" ;;
                   body <- getitem (pd_DataFrame (map post_dict listing)) "body" ;;
                   series_concat title " " body) = Ok (map VStr texts)).
  { rewrite Hpf. cbn [getitem columns lookup String.eqb Ascii.eqb Bool.eqb bind].
    apply series_concat_strs. }
  set (posts0 := setitem (pd_DataFrame (map post_dict listing)) "full_text" (map VStr texts)).
  assert (Hwf0 : wf posts0).
  { apply wf_setitem; [apply wf_pd_DataFrame|].
    unfold pd_DataFrame, texts. cbn [index]. now rewrite !length_map. }
  destruct (annotate_runs polarity posts0 "full_text" texts
              (map (fun p => VTime (s_created_utc p)) listing) Hwf0)
    as (p1 & p2 & p3 & p4 & p5 & P1 & P2 & P3 & P4 & P5 & PL & PT & PC & PS & PF
        & PM & PLa & PR & PD).
  { apply getitem_setitem_same. }
  { unfold posts0. rewrite getitem_setitem_other by discriminate. now rewrite Hpf. }
  { reflexivity. }
  set (comments0 := pd_DataFrame (map (fun pc => comment_dict (fst pc) (snd pc)) pairs)).
  destruct (annotate_runs polarity comments0 "comment_body" bodies
              (map (fun pc => VTime (c_created_utc (snd pc))) pairs)
              (wf_pd_DataFrame _))
    as (c1 & c2 & c3 & c4 & c5 & C1 & C2 & C3 & C4 & C5 & CL & CT & CC & CS & CF
        & CM & CLa & CR & CD).
  { unfold comments0. rewrite Hcf. unfold bodies. now rewrite map_map. }
  { unfold comments0. now rewrite Hcf. }
  { reflexivity. }
  destruct (keyword_counts_runs p5 "merger" MERGER_KEYWORDS texts PF) as [pcounts PK].
  destruct (keyword_counts_runs c5 "merger" MERGER_KEYWORDS bodies CF) as [ccounts CK].
  assert (Nt : texts <> []).
  { unfold texts. destruct listing; [tauto | discriminate]. }
  assert (Nb : bodies <> []).
  { unfold bodies. destruct pairs; [tauto | discriminate]. }
  destruct (combined_signal_value p5 c5 "merger" _ _ _ PM CM PL CL Nt Nb)
    as (Pm & Cm & Hm).
  destruct (combined_signal_value p5 c5 "layoff" _ _ _ PLa CLa PL CL Nt Nb)
    as (Pl & Cl & Hlay).
  destruct (combined_signal_value p5 c5 "reassign" _ _ _ PR CR PL CL Nt Nb)
    as (Pr & Cr & Hr).
  destruct (combined_signal_value p5 c5 "reduced_work" _ _ _ PD CD PL CL Nt Nb)
    as (Pd & Cd & Hd).
  assert (Hall : (texts' <- (col <- getitem p5 "full_text" ;; series_strs col) ;;
                  bodies' <- (col <- getitem c5 "comment_body" ;; series_strs col) ;;
                  Ok (join " " texts' +++ " " +++ join " " bodies'))
                 = Ok (join " " texts +++ " " +++ join " " bodies)).
  { rewrite PT, CT. cbn [bind]. now rewrite !series_strs_VStr. }
  assert (Hpm : (col <- getitem p5 "sentiment" ;; series_mean mean col)
                = Ok (mean (map polarity texts))).
  { rewrite PS. cbn [bind]. unfold series_mean. now rewrite series_floats_VFloat. }
  assert (Hcm : (col <- getitem c5 "sentiment" ;; series_mean mean col)
                = Ok (mean (map polarity bodies))).
  { rewrite CS. cbn [bind]. unfold series_mean. now rewrite series_floats_VFloat. }
  exists p5, c5. split; [|split; [|split; [|split; [|split]]]].
  - unfold analyze_company.
    rewrite (io_bind_Ok datetime_now _ w w (now w) eq_refl).
    erewrite io_bind_Ok by (unfold os_makedirs; reflexivity).
    erewrite io_bind_Ok by (unfold logging_info; cbn [hot now dirs log files]; reflexivity).
    erewrite io_bind_Ok
      by (unfold analyze_subreddit; cbn [hot now dirs log files]; reflexivity).
    cbv zeta. cbn [fst snd]. fold listing. rewrite comment_dicts_of_pairs. fold pairs.
    rewrite (io_bind_lift _ _ _ _ Hfull). fold posts0.
    rewrite (io_bind_lift _ _ _ _ P1).
    fold comments0. rewrite (io_bind_lift _ _ _ _ C1).
    rewrite (io_bind_lift _ _ _ _ P2), (io_bind_lift _ _ _ _ P3),
      (io_bind_lift _ _ _ _ P4), (io_bind_lift _ _ _ _ P5).
    rewrite (io_bind_lift _ _ _ _ C2), (io_bind_lift _ _ _ _ C3),
      (io_bind_lift _ _ _ _ C4), (io_bind_lift _ _ _ _ C5).
    erewrite io_bind_Ok by (apply (plot_sentiment_over_time_runs _ _ _ _ _ _ PC PS)).
    cbn [hot now dirs log files].
    erewrite io_bind_Ok by (apply (plot_sentiment_over_time_runs _ _ _ _ _ _ CC CS)).
    cbn [hot now dirs log files].
    erewrite io_bind_Ok by (apply (plot_keyword_frequency_runs _ _ _ _ _ _ _ PK)).
    cbn [hot now dirs log files].
    erewrite io_bind_Ok by (apply (plot_keyword_frequency_runs _ _ _ _ _ _ _ CK)).
    cbn [hot now dirs log files].
    rewrite (io_bind_lift _ _ _ _ Hall). cbv zeta.
    rewrite (io_bind_lift _ _ _ _ Hm), (io_bind_lift _ _ _ _ Hlay),
      (io_bind_lift _ _ _ _ Hr), (io_bind_lift _ _ _ _ Hd).
    rewrite (io_bind_lift _ _ _ _ Hpm), (io_bind_lift _ _ _ _ Hcm).
    erewrite io_bind_Ok by (unfold write_file; cbn [hot now dirs log files]; reflexivity).
    erewrite io_bind_Ok by (unfold logging_info; cbn [hot now dirs log files]; reflexivity).
    erewrite io_bind_Ok by (unfold write_file; cbn [hot now dirs log files]; reflexivity).
    unfold write_file. cbn [hot now dirs log files].
    rewrite <- !app_assoc. cbn [app]. reflexivity.
  - rewrite PL. unfold texts. apply length_map.
  - rewrite CL. unfold bodies. apply length_map.
  - exact PT.
  - exact CT.
  - intros column_prefix keywords [Hin | [Hin | [Hin | [Hin | []]]]];
      injection Hin as <- <-; now split.
Qed.

(** The run on a forum without any post. *)
Lemma analyze_company_no_posts (polarity : string -> float)
    (mean : list float -> float) (subreddit_name : string) (w : World) :
  firstn 100 (hot w subreddit_name) = [] ->
  analyze_company polarity mean subreddit_name w
  = (Raise (KeyError "title"),
     mkWorld (hot w) (now w)
       (dirs w ++ ["output/" +++ subreddit_name +++ "_" +++ now w])
       (log w ++ ["Starting analysis for r/" +++ subreddit_name])
       (files w)).
Proof.
  intros Hempty. unfold analyze_company, io_bind, datetime_now, os_makedirs,
    logging_info, analyze_subreddit. cbn [hot now dirs log files].
  rewrite Hempty. reflexivity.
Qed.

(** The run on a forum with posts and without any comment. *)
Lemma analyze_company_no_comments (polarity : string -> float)
    (mean : list float -> float) (subreddit_name : string) (w : World) :
  firstn 100 (hot w subreddit_name) <> [] ->
  fetched_comments (firstn 100 (hot w subreddit_name)) 100 = [] ->
  analyze_company polarity mean subreddit_name w
  = (Raise (KeyError "comment_body"),
     mkWorld (hot w) (now w)
       (dirs w ++ ["output/" +++ subreddit_name +++ "_" +++ now w])
       (log w ++ ["Starting analysis for r/" +++ subreddit_name])
       (files w)).
Proof.
  intros Hl Hc.
  set (listing := firstn 100 (hot w subreddit_name)) in *.
  set (texts := map (fun p => s_title p +++ " " +++ s_selftext p) listing).
  pose proof (posts_frame listing Hl) as Hpf.
  assert (Hfull : (title <- getitem (pd_DataFrame (map post_dict listing)) "title" ;;
                   body <- getitem (pd_DataFrame (map post_dict listing)) "body" ;;
                   series_concat title " " body) = Ok (map VStr texts)).
  { rewrite Hpf. cbn [getitem columns lookup String.eqb Ascii.eqb Bool.eqb bind].
    apply series_concat_strs. }
  set (posts0 := setitem (pd_DataFrame (map post_dict listing)) "full_text" (map VStr texts)).
  pose proof (sentiment_analysis_runs polarity posts0 "full_text" texts
                (getitem_setitem_same _ _ _)) as P1.
  unfold analyze_company.
  rewrite (io_bind_Ok datetime_now _ w w (now w) eq_refl).
  erewrite io_bind_Ok by (unfold os_makedirs; reflexivity).
  erewrite io_bind_Ok by (unfold logging_info; cbn [hot now dirs log files]; reflexivity).
  erewrite io_bind_Ok
    by (unfold analyze_subreddit; cbn [hot now dirs log files]; reflexivity).
  cbv zeta. cbn [fst snd]. fold listing. rewrite comment_dicts_of_pairs, Hc.
  rewrite (io_bind_lift _ _ _ _ Hfull). fold posts0.
  rewrite (io_bind_lift _ _ _ _ P1).
  now rewrite (io_bind_lift_Raise _ _ _ (KeyError "comment_body")).
Qed.

(** On a forum whose listing has at least one post and at least one
    comment among the first hundred of each, the pipeline returns: it
    makes one directory, logs two lines, and writes four charts, the
    report and the two annotated frames, in this order; the frames keep
    one row per post and per comment, the four signals are floats, and
    the entities are tallied over the posts' texts followed by the
    comments' bodies, joined by spaces (lines 136-205). *)
Theorem analyze_company_completes (polarity : string -> float)
    (mean : list float -> float) (subreddit_name : string) (w : World) :
  let listing := firstn 100 (hot w subreddit_name) in
  let pairs := fetched_comments listing 100 in
  let output_dir := "output/" +++ subreddit_name +++ "_" +++ now w in
  listing <> [] ->
  pairs <> [] ->
  exists report posts_df comments_df,
    analyze_company polarity mean subreddit_name w
    = (Ok tt,
       mkWorld (hot w) (now w)
         (dirs w ++ [output_dir])
         (log w ++ [ "Starting analysis for r/" +++ subreddit_name;
                     "Analysis complete for r/" +++ subreddit_name
                     +++ ". Report saved to " +++ output_dir +++ "/report.txt" ])
         (files w ++ [ (output_dir +++ "/sentiment_posts.png", Png);
                       (output_dir +++ "/sentiment_comments.png", Png);
                       (output_dir +++ "/keyword_frequency_merger keywords (posts).png", Png);
                       (output_dir +++ "/keyword_frequency_merger keywords (comments).png",
                        Png);
                       (output_dir +++ "/report.txt", ReportTxt report);
                       (output_dir +++ "/posts.csv", Csv posts_df);
                       (output_dir +++ "/comments.csv", Csv comments_df) ]))
    /\ len posts_df = List.length listing
    /\ len comments_df = List.length pairs
    /\ (exists m l r d,
           merger_signal report = VFloat m /\ layoff_signal report = VFloat l
           /\ reassign_signal report = VFloat r /\ reduced_work_signal report = VFloat d)
    /\ company_counts report
       = most_common 10
           (Counter (extract_companies
              (join " " (map (fun p => s_title p +++ " " +++ s_selftext p) listing)
               +++ " " +++ join " " (map (fun pc => c_body (snd pc)) pairs)))).
Proof.
  cbv zeta. intros Hl Hc.
  destruct (analyze_company_run polarity mean subreddit_name w Hl Hc)
    as (posts_df & comments_df & Hrun & Lp & Lc & _).
  eexists _, posts_df, comments_df.
  split; [exact Hrun|]. split; [exact Lp|]. split; [exact Lc|]. split; [|reflexivity].
  cbn [merger_signal layoff_signal reassign_signal reduced_work_signal]. eauto 10.
Qed.

Example busy_forum : World :=
  mkWorld
    (fun _ =>
       [ mkSubmission "Big merger" 10 "p1" "http://forum/p1" 1 50
           "Example Corp was acquired by Sample Inc"
           [ mkComment "c1" "t3_p1" "I heard Sample Inc did a buyout" 3 100 ];
         mkSubmission "Lunch" 4 "p2" "http://forum/p2" 0 60 "" [] ])
    "20240101_000000" [] [] [].

Lemma analyze_company_completes_witness :
  exists report,
    analyze_company (fun _ => 0%float) (fun _ => 0%float) "jobs" busy_forum
    = (Ok tt, snd (analyze_company (fun _ => 0%float) (fun _ => 0%float) "jobs" busy_forum))
    /\ In ("output/jobs_20240101_000000/report.txt", ReportTxt report)
          (files (snd (analyze_company (fun _ => 0%float) (fun _ => 0%float) "jobs"
                         busy_forum))).
Proof.
  destruct (analyze_company_completes (fun _ => 0%float) (fun _ => 0%float) "jobs"
              busy_forum) as (report & posts_df & comments_df & Hrun & _).
  - cbn. discriminate.
  - cbn. discriminate.
  - exists report. rewrite Hrun. split; [reflexivity|].
    cbn. right. right. right. right. left. reflexivity.
Defined.

(** On a forum whose listing has posts but no comment at all, the
    pipeline makes the output directory, logs its first line and raises
    [KeyError('comment_body')] at line 149: the comments frame, built
    from no record, has no column.  Nothing is written (lines
    136-149). *)
Theorem analyze_company_without_comments (polarity : string -> float)
    (mean : list float -> float) (subreddit_name : string) (w : World) :
  let listing := firstn 100 (hot w subreddit_name) in
  listing <> [] ->
  fetched_comments listing 100 = [] ->
  analyze_company polarity mean subreddit_name w
  = (Raise (KeyError "comment_body"),
     mkWorld (hot w) (now w)
       (dirs w ++ ["output/" +++ subreddit_name +++ "_" +++ now w])
       (log w ++ ["Starting analysis for r/" +++ subreddit_name])
       (files w)).
Proof. cbv zeta. apply analyze_company_no_comments. Qed.

Example posts_only_forum : World :=
  mkWorld
    (fun _ => [ mkSubmission "Lunch" 4 "p2" "http://forum/p2" 0 60 "" [] ])
    "20240101_000000" [] [] [].

Lemma analyze_company_without_comments_witness :
  analyze_company (fun _ => 0%float) (fun _ => 0%float) "jobs" posts_only_forum
  = (Raise (KeyError "comment_body"),
     mkWorld (hot posts_only_forum) "20240101_000000"
       ["output/jobs_20240101_000000"] ["Starting analysis for r/jobs"] []).
Proof.
  apply (analyze_company_without_comments (fun _ => 0%float) (fun _ => 0%float)
           "jobs" posts_only_forum).
  - cbn. discriminate.
  - reflexivity.
Defined.

(** ** The reported signals *)

Lemma lookup_app_miss {A : Type} (key : string) (l1 l2 : list (string * A)) :
  (forall q b, In (q, b) l1 -> q <> key) -> lookup key (l1 ++ l2) = lookup key l2.
Proof.
  induction l1 as [| [q b] l1 IH]; intros H; [reflexivity|].
  cbn [app lookup].
  assert (E : String.eqb key q = false).
  { apply String.eqb_neq. intros ->. now apply (H q b); [left|]. }
  rewrite E. apply IH. intros q' b' Hin. apply (H q' b'). now right.
Qed.

(** A file holds what was written to it when no later write went to
    its path. *)
Lemma file_at_written (path : string) (a : artifact) (w : World)
    (before later : list (string * artifact)) :
  files w = before ++ (path, a) :: later ->
  (forall q b, In (q, b) later -> q <> path) ->
  file_at path w = Some a.
Proof.
  unfold file_at. intros -> H.
  rewrite rev_app_distr. cbn [rev]. rewrite <- !app_assoc.
  rewrite lookup_app_miss.
  - cbn [app lookup]. now rewrite String.eqb_refl.
  - intros q b Hin. apply in_rev in Hin. now apply (H q b).
Qed.

(** C8. Whenever the pipeline returns, [report.txt] holds a report and
    [posts.csv] and [comments.csv] hold the annotated frames of the
    posts and the comments fetched, and for each of the four categories
    the signal of the report is the float sum [a + b] of the signal
    strength [a] of the category on the posts frame and the signal
    strength [b] on the comments frame, each 100 times the occurrences
    of the category's keywords per record. *)
Theorem reported_signal_is_sum (polarity : string -> float) (mean : list float -> float)
    (subreddit_name : string) (w w' : World) :
  analyze_company polarity mean subreddit_name w = (Ok tt, w') ->
  let listing := firstn 100 (hot w subreddit_name) in
  let texts := map (fun p => s_title p +++ " " +++ s_selftext p) listing in
  let bodies := map (fun pc => c_body (snd pc)) (fetched_comments listing 100) in
  let output_dir := "output/" +++ subreddit_name +++ "_" +++ now w in
  exists report posts_df comments_df,
    file_at (output_dir +++ "/report.txt") w' = Some (ReportTxt report)
    /\ file_at (output_dir +++ "/posts.csv") w' = Some (Csv posts_df)
    /\ file_at (output_dir +++ "/comments.csv") w' = Some (Csv comments_df)
    /\ getitem posts_df "full_text" = Ok (map VStr texts)
    /\ getitem comments_df "comment_body" = Ok (map VStr bodies)
    /\ (forall column_prefix keywords signal,
          In (column_prefix, keywords, signal)
             [ ("merger", MERGER_KEYWORDS, merger_signal report);
               ("layoff", LAYOFF_KEYWORDS, layoff_signal report);
               ("reassign", REASSIGNMENT_KEYWORDS, reassign_signal report);
               ("reduced_work", REDUCED_WORKLOAD_KEYWORDS, reduced_work_signal report) ] ->
          exists a b,
            calculate_signal_strength posts_df column_prefix = Ok (VFloat a)
            /\ calculate_signal_strength comments_df column_prefix = Ok (VFloat b)
            /\ a = strength keywords texts
            /\ b = strength keywords bodies
            /\ signal = VFloat (a + b)).
Proof.
  cbv zeta. intros Hrun.
  set (listing := firstn 100 (hot w subreddit_name)) in *.
  assert (Hl : listing <> []).
  { intros Hnil. rewrite (analyze_company_no_posts _ _ _ _ Hnil) in Hrun. discriminate. }
  assert (Hc : fetched_comments listing 100 <> []).
  { intros Hnil. rewrite (analyze_company_no_comments _ _ _ _ Hl Hnil) in Hrun.
    discriminate. }
  destruct (analyze_company_run polarity mean subreddit_name w Hl Hc)
    as (posts_df & comments_df & Hrun' & _ & _ & PT & CT & Hsig).
  rewrite Hrun' in Hrun. injection Hrun as <-.
  set (output_dir := "output/" +++ subreddit_name +++ "_" +++ now w) in *.
  assert (Hpaths : forall a b : string, a <> b -> output_dir +++ a <> output_dir +++ b).
  { intros a b Hab Heq. now apply append_inj_l in Heq. }
  eexists _, posts_df, comments_df.
  split; [|split; [|split; [|split; [exact PT | split; [exact CT|]]]]].
  - eapply (file_at_written _ _ _ (files w ++ [_; _; _; _]) [_; _]).
    + cbn [files]. rewrite <- app_assoc. reflexivity.
    + intros q b [Hq | [Hq | []]]; injection Hq as <- _; apply Hpaths; discriminate.
  - eapply (file_at_written _ _ _ (files w ++ [_; _; _; _; _]) [_]).
    + cbn [files]. rewrite <- app_assoc. reflexivity.
    + intros q b [Hq | []]; injection Hq as <- _; apply Hpaths; discriminate.
  - eapply (file_at_written _ _ _ (files w ++ [_; _; _; _; _; _]) []).
    + cbn [files]. rewrite <- app_assoc. reflexivity.
    + intros q b [].
  - cbn [merger_signal layoff_signal reassign_signal reduced_work_signal].
    intros column_prefix keywords signal [Hin | [Hin | [Hin | [Hin | []]]]];
      injection Hin as <- <- <-;
      (eexists _, _; split; [apply Hsig; cbn; tauto|];
       split; [apply Hsig; cbn; tauto|]; repeat split).
Qed.

Lemma reported_signal_is_sum_witness :
  exists report,
    file_at "output/jobs_20240101_000000/report.txt"
      (snd (analyze_company (fun _ => 0%float) (fun _ => 0%float) "jobs" busy_forum))
    = Some (ReportTxt report)
    /\ merger_signal report = VFloat (50 + 100).
Proof.
  pose proof (reported_signal_is_sum (fun _ => 0%float) (fun _ => 0%float) "jobs"
                busy_forum
                (snd (analyze_company (fun _ => 0%float) (fun _ => 0%float) "jobs"
                        busy_forum))) as H.
  cbv zeta in H.
  destruct H as (report & posts_df & comments_df & Hr & _ & _ & _ & _ & Hsig).
  - vm_compute. reflexivity.
  - exists report. split; [exact Hr|].
    destruct (Hsig "merger" MERGER_KEYWORDS (merger_signal report) (or_introl eq_refl))
      as (a & b & _ & _ & Ha & Hb & Hs).
    rewrite Hs, Ha, Hb. vm_compute. reflexivity.
Defined.

(** ** The loop over the forums *)





(** ** Annotating again *)

Lemma replace_or_append_same (key : string) (s : Series) (cols : list (string * Series)) :
  lookup key cols = Some s -> replace_or_append key s cols = cols.
Proof.
  induction cols as [| [k v] cols IH]; cbn [lookup replace_or_append]; [discriminate|].
  destruct (String.eqb key k) eqn:E.
  - now intros [= ->].
  - intros H. now rewrite IH.
Qed.

Lemma setitem_same (df : DataFrame) (key : string) (s : Series) :
  getitem df key = Ok s -> setitem df key s = df.
Proof.
  unfold getitem, setitem. destruct df as [n cols]. cbn [index columns].
  destruct (lookup key cols) as [s' |] eqn:E; [|discriminate].
  intros [= ->]. now rewrite replace_or_append_same.
Qed.

Lemma keyword_loop_fixed (df : DataFrame) (text_column column_prefix : string)
    (keywords : list string) (texts : list string) :
  getitem df text_column = Ok (map VStr texts) ->
  (forall k, In k keywords ->
     getitem df (flag_column column_prefix k) = Ok (flag_series k texts)) ->
  keyword_loop df text_column keywords column_prefix = Ok df.
Proof.
  intros Htext. induction keywords as [| k rest IH]; intros H; [reflexivity|].
  cbn [keyword_loop]. rewrite Htext. cbn [bind]. rewrite series_apply_keyword. cbn [bind].
  rewrite setitem_same by (apply H; now left).
  apply IH. intros k' Hk'. apply H. now right.
Qed.

(** Annotating an annotated frame again changes nothing: when
    [keyword_analysis] has returned a frame, on a text column that is
    none of the columns it writes and with no keyword [score], the same
    call on that frame returns that very frame (lines 97-101). *)
Theorem keyword_analysis_again (df df' : DataFrame) (text_column column_prefix : string)
    (keywords : list string) (texts : list string) :
  wf df ->
  getitem df text_column = Ok (map VStr texts) ->
  untouched text_column column_prefix keywords = true ->
  existsb (String.eqb "score") keywords = false ->
  keyword_analysis df text_column keywords column_prefix = Ok df' ->
  keyword_analysis df' text_column keywords column_prefix = Ok df'.
Proof.
  intros Hwf Htext Hclear Hscore Hrun.
  destruct (keyword_analysis_step df text_column column_prefix keywords texts
              Hwf Htext Hclear Hscore) as (df2 & Hrun2 & Hwf2 & Hlen & Hs & Hflags & Hframe).
  rewrite Hrun in Hrun2. injection Hrun2 as <-.
  assert (Htext' : getitem df' text_column = Ok (map VStr texts)) by now rewrite Hframe.
  unfold keyword_analysis.
  rewrite (keyword_loop_fixed df' text_column column_prefix keywords texts Htext' Hflags).
  cbn [bind]. rewrite (getitem_list_flags _ _ _ texts Hflags). cbn [bind].
  assert (Hidx : index df' = List.length texts).
  { rewrite <- (wf_getitem _ _ _ Hwf2 Htext'). now rewrite length_map. }
  rewrite Hidx, sum_axis1_flags. cbn [bind]. now rewrite setitem_same.
Qed.

Lemma keyword_analysis_again_witness :
  exists df',
    keyword_analysis three_posts "full_text" MERGER_KEYWORDS "merger" = Ok df'
    /\ keyword_analysis df' "full_text" MERGER_KEYWORDS "merger" = Ok df'.
Proof.
  destruct (keyword_analysis three_posts "full_text" MERGER_KEYWORDS "merger")
    as [df' | e] eqn:Hrun; [|vm_compute in Hrun; discriminate].
  exists df'. split; [reflexivity|].
  exact (keyword_analysis_again three_posts df' "full_text" "merger" MERGER_KEYWORDS
           ["Big Merger announced today"; "nothing to see"; "lunch was fine"]
           (wf_pd_DataFrame _) eq_refl eq_refl eq_refl Hrun).
Defined.

(** ** The tally, in total *)

Fixpoint total (c : list (string * nat)) : nat :=
  match c with
  | [] => 0
  | p :: c' => snd p + total c'
  end.

Lemma total_counter_add (x : string) (c : list (string * nat)) :
  total (counter_add x c) = S (total c).
Proof.
  induction c as [| [y n] c IH]; [reflexivity|].
  cbn [counter_add]. destruct (String.eqb x y); cbn [total snd]; [|rewrite IH]; lia.
Qed.

Lemma total_insert_desc (p : string * nat) (l : list (string * nat)) :
  total (insert_desc p l) = (snd p + total l)%nat.
Proof.
  induction l as [| q l IH]; [reflexivity|].
  cbn [insert_desc]. destruct (snd q <=? snd p)%nat; cbn [total]; [reflexivity|].
  rewrite IH. lia.
Qed.

Lemma total_sort_desc (l : list (string * nat)) : total (sort_desc l) = total l.
Proof.
  induction l as [| p l IH]; [reflexivity|].
  cbn [sort_desc fold_right]. fold (sort_desc l).
  rewrite total_insert_desc. cbn [total]. now rewrite IH.
Qed.

Lemma total_firstn_le (n : nat) (l : list (string * nat)) :
  (total (firstn n l) <= total l)%nat.
Proof.
  revert l. induction n as [| n IH]; intros l; [cbn; lia|].
  destruct l as [| p l]; [apply Nat.le_refl|].
  cbn [firstn total]. specialize (IH l). lia.
Qed.

(** The frequencies of the tally add up to the number of items tallied,
    and the frequencies that [most_common(n)] reports add up to no more
    (lines 170-171). *)
Theorem Counter_total (n : nat) (items : list string) :
  total (Counter items) = List.length items
  /\ (total (most_common n (Counter items)) <= List.length items)%nat.
Proof.
  assert (H : total (Counter items) = List.length items).
  { induction items as [| x items IH] using rev_ind; [reflexivity|].
    rewrite Counter_snoc, total_counter_add, IH, length_app. cbn. lia. }
  split; [exact H|].
  unfold most_common. rewrite <- H, <- (total_sort_desc (Counter items)).
  apply total_firstn_le.
Qed.
